(** * LUNA USB 2.0 stream endpoints (luna/gateware/usb/usb2/endpoints/stream.py)

    A cycle-accurate shallow embedding of the three gateware modules of
    [stream.py]: every nMigen signal is a field of a record, the
    combinational domain ([m.d.comb]) is a family of pure functions of the
    registers and of the inputs of the current cycle, and the synchronous
    domain ([m.d.usb]) is a next-state function applied at the clock edge. *)

From Stdlib Require Import ZArith List Bool Lia.
Import ListNotations.
Local Open Scope Z_scope.

(** ** nMigen values *)

Module Bits.

(** A one-bit signal read as an integer. *)
Definition b2z (b : bool) : Z := if b then 1 else 0.

(** Assignment to a [w]-bit signal keeps the low [w] bits. *)
Definition truncate (w : Z) (x : Z) : Z := x mod 2 ^ w.

(** [x[lo:hi]] on a signal. *)
Definition slice (lo hi : Z) (x : Z) : Z := Z.shiftr x lo mod 2 ^ (hi - lo).

(** [x[i]] on a signal. *)
Definition bit (i : Z) (x : Z) : bool := Z.testbit x i.

End Bits.

(** ** The receive buffer *)

Module TransactionalizedFIFO.

(** Modelled from the spec: [TransactionalizedFIFO], which
    luna/gateware/memory.py defines and [stream.py] only instantiates.
    Section 4.1 of the specification describes it as a buffer of fixed
    capacity whose written entries stay speculative until a commit makes
    them visible to the reader in FIFO order, or a discard removes them
    as if they had never been written; [space_available] counts the
    capacity left while speculative entries occupy space, and data is
    visible to a reader only after commit. *)
Record t : Type := mk
  { depth     : Z
  ; committed : list Z      (* visible to the reader, oldest first *)
  ; pending   : list Z      (* written since the last commit or discard *)
  }.

Definition empty_fifo (d : Z) : t := mk d [] [].

Definition occupancy (f : t) : Z :=
  Z.of_nat (length (committed f)) + Z.of_nat (length (pending f)).

Definition space_available (f : t) : Z := depth f - occupancy f.

Definition full (f : t) : bool := space_available f <=? 0.

Definition empty (f : t) : bool :=
  match committed f with [] => true | _ :: _ => false end.

(** The entry under the read pointer; nothing meaningful while [empty]. *)
Definition read_data (f : t) : Z := hd 0 (committed f).

(** Write port: one speculative entry, refused when the buffer is full. *)
Definition write (write_en : bool) (write_data : Z) (f : t) : t :=
  if write_en && negb (full f)
  then mk (depth f) (committed f) (pending f ++ [write_data])
  else f.

(** [write_discard] drops the speculative run; otherwise [write_commit]
    appends it to the visible queue. *)
Definition finish (write_commit write_discard : bool) (f : t) : t :=
  if write_discard then mk (depth f) (committed f) []
  else if write_commit then mk (depth f) (committed f ++ pending f) []
  else f.

(** Read port with [read_commit] tied high: a read is final. *)
Definition read (read_en : bool) (f : t) : t :=
  if read_en then mk (depth f) (tl (committed f)) (pending f) else f.

(** One clock edge.  The read pointer moves on what was visible before
    the edge; the write side then stores and closes the run. *)
Definition step (write_en : bool) (write_data : Z)
           (write_commit write_discard read_en : bool) (f : t) : t :=
  finish write_commit write_discard (write write_en write_data (read read_en f)).

End TransactionalizedFIFO.

Module FIFO := TransactionalizedFIFO.

(** ** USBStreamOutEndpoint *)

Module USBStreamOutEndpoint.

Import Bits.

(** The attributes set by [__init__]. *)
Record config : Type := mk_config
  { _endpoint_number : Z
  ; _max_packet_size : Z
  ; _buffer_size     : Z
  }.

(** [__init__(endpoint_number, max_packet_size, buffer_size=None)].
    The constructor has no failing path; [Some] is every outcome. *)
Definition __init__ (endpoint_number max_packet_size : Z)
           (buffer_size : option Z) : option config :=
  Some (mk_config endpoint_number max_packet_size
          (match buffer_size with
           | Some b => b
           | None => max_packet_size * 2
           end)).

(** The signals the endpoint samples in one cycle: the tokenizer and
    receive strobes of its [EndpointInterface], the outputs of the
    boundary detector submodule, and the consumer's [ready].
    [rx_pid_toggle] is compared with the one-bit [expected_data_toggle]
    and is one bit itself; [tokenizer_endpoint] is compared with the
    Python integer [self._endpoint_number]. *)
Record inputs : Type := mk_inputs
  { tokenizer_endpoint           : Z
  ; tokenizer_is_out             : bool
  ; tokenizer_is_ping            : bool
  ; tokenizer_ready_for_response : bool
  ; rx_ready_for_response        : bool
  ; rx_pid_toggle                : bool
  ; rx_payload                   : Z
  ; rx_valid                     : bool
  ; rx_next                      : bool
  ; rx_first                     : bool
  ; rx_last                      : bool
  ; complete_out                 : bool
  ; invalid_out                  : bool
  ; stream_ready                 : bool
  }.

(** The registers of [elaborate], and the FIFO submodule. *)
Record state : Type := mk_state
  { is_first_byte        : bool
  ; expected_data_toggle : bool
  ; fifo                 : FIFO.t
  }.

(** Reset values: [Signal(reset=1)], [Signal()], an empty buffer of
    [depth=self._buffer_size]. *)
Definition reset (c : config) : state :=
  mk_state true false (FIFO.empty_fifo (_buffer_size c)).

Section Comb.
Variable c : config.
Variable s : state.
Variable i : inputs.

Definition endpoint_number_matches : bool :=
  tokenizer_endpoint i =? _endpoint_number c.

Definition targeting_endpoint : bool :=
  endpoint_number_matches && tokenizer_is_out i.

Definition expected_pid_match : bool :=
  Bool.eqb (rx_pid_toggle i) (expected_data_toggle s).

Definition sufficient_space : bool :=
  FIFO.space_available (fifo s) >=? _max_packet_size c.

Definition ping_response_requested : bool :=
  endpoint_number_matches && tokenizer_is_ping i
  && tokenizer_ready_for_response i.

Definition data_response_requested : bool :=
  targeting_endpoint && tokenizer_is_out i && rx_ready_for_response i.

Definition okay_to_receive : bool :=
  targeting_endpoint && sufficient_space && expected_pid_match.

Definition should_skip : bool :=
  targeting_endpoint && negb expected_pid_match.

(** [fifo.write_data]: payload in bits 0..7, [last] in bit 8, [first]
    in bit 9. *)
Definition fifo_write_data : Z :=
  truncate 8 (rx_payload i) + 256 * b2z (rx_last i) + 512 * b2z (rx_first i).

Definition fifo_write_en : bool :=
  okay_to_receive && rx_next i && rx_valid i.

Definition fifo_write_commit : bool :=
  targeting_endpoint && complete_out i.

Definition fifo_write_discard : bool :=
  targeting_endpoint && invalid_out i.

Definition handshakes_out_ack : bool :=
  (data_response_requested && okay_to_receive)
  || (ping_response_requested && okay_to_receive)
  || (data_response_requested && should_skip).

Definition handshakes_out_nak : bool :=
  (data_response_requested && negb okay_to_receive && negb should_skip)
  || (ping_response_requested && negb okay_to_receive).

Definition stream_valid : bool := negb (FIFO.empty (fifo s)).
Definition stream_payload : Z := slice 0 8 (FIFO.read_data (fifo s)).
Definition stream_last : bool := bit 8 (FIFO.read_data (fifo s)).
Definition stream_first : bool := bit 9 (FIFO.read_data (fifo s)).

Definition fifo_read_en : bool := stream_ready i.

(** The clock edge of the [usb] domain. *)
Definition step : state :=
  mk_state
    (if stream_valid && stream_ready i then stream_last
     else is_first_byte s)
    (if data_response_requested && okay_to_receive
     then negb (expected_data_toggle s)
     else expected_data_toggle s)
    (FIFO.step fifo_write_en fifo_write_data
               fifo_write_commit fifo_write_discard fifo_read_en (fifo s)).

End Comb.

(** Everything the endpoint drives in one cycle. *)
Record outputs : Type := mk_outputs
  { out_ack     : bool
  ; out_nak     : bool
  ; out_valid   : bool
  ; out_payload : Z
  ; out_first   : bool
  ; out_last    : bool
  }.

Definition drive (c : config) (s : state) (i : inputs) : outputs :=
  mk_outputs (handshakes_out_ack c s i) (handshakes_out_nak c s i)
             (stream_valid s) (stream_payload s)
             (stream_first s) (stream_last s).

(** Registers after a run of cycles. *)
Fixpoint run (c : config) (s : state) (tr : list inputs) : state :=
  match tr with
  | [] => s
  | i :: tr' => run c (step c s i) tr'
  end.

(** What the endpoint drives during a run, cycle by cycle. *)
Fixpoint trace (c : config) (s : state) (tr : list inputs) : list outputs :=
  match tr with
  | [] => []
  | i :: tr' => drive c s i :: trace c (step c s i) tr'
  end.

(** The FIFO entries handed to the consumer: one per cycle in which
    [stream.valid] and [stream.ready] are both high. *)
Fixpoint delivered (c : config) (s : state) (tr : list inputs) : list Z :=
  match tr with
  | [] => []
  | i :: tr' =>
      (if stream_valid s && stream_ready i
       then [FIFO.read_data (fifo s)] else [])
      ++ delivered c (step c s i) tr'
  end.

(** The entries strobed into the FIFO's write port during a run. *)
Fixpoint written (c : config) (s : state) (tr : list inputs) : list Z :=
  match tr with
  | [] => []
  | i :: tr' =>
      (if fifo_write_en c s i then [fifo_write_data i] else [])
      ++ written c (step c s i) tr'
  end.

(** Cycles of a run in which a data packet is accepted. *)
Fixpoint acceptances (c : config) (s : state) (tr : list inputs) : nat :=
  match tr with
  | [] => O
  | i :: tr' =>
      ((if data_response_requested c i && okay_to_receive c s i
        then 1 else 0) + acceptances c (step c s i) tr')%nat
  end.

End USBStreamOutEndpoint.

(** ** USBStreamInEndpoint *)

Module USBInTransferManager.

(** Modelled from the spec: [USBInTransferManager], which
    luna/gateware/usb/usb2/transfer.py defines and [stream.py] only
    instantiates.  Section 4.3 and the glossary of the specification give its
    packetisation: bytes of the transfer stream fill a packet of at most
    max-packet-size bytes; a packet is sent when it is full or when the
    byte marked [last] arrives; when the byte marked [last] exactly fills
    a max-size packet and [generate_zlps] is set, one zero-length packet
    is transmitted after it.  A packet is the list of its bytes; [buf]
    is the packet being filled. *)
Fixpoint packets (max_packet_size : Z) (generate_zlps : bool)
         (buf : list Z) (transfer_stream : list (Z * bool)) : list (list Z) :=
  match transfer_stream with
  | [] => []
  | (payload, last) :: rest =>
      let buf' := buf ++ [payload] in
      if Z.of_nat (length buf') >=? max_packet_size
      then (buf' :: (if last && generate_zlps then [[]] else []))
             ++ packets max_packet_size generate_zlps [] rest
      else if last
           then buf' :: packets max_packet_size generate_zlps [] rest
           else packets max_packet_size generate_zlps buf' rest
  end.

End USBInTransferManager.

Module USBStreamInEndpoint.

Record config : Type := mk_config
  { _endpoint_number : Z
  ; _max_packet_size : Z
  }.

Definition __init__ (endpoint_number max_packet_size : Z) : config :=
  mk_config endpoint_number max_packet_size.

(** [tx_manager.generate_zlps.eq(1)] *)
Definition tx_manager_generate_zlps : bool := true.

(** [tx_manager.active.eq(interface.tokenizer.endpoint == self._endpoint_number)] *)
Definition tx_manager_active (c : config) (tokenizer_endpoint : Z) : bool :=
  tokenizer_endpoint =? _endpoint_number c.

(** [tx_manager.transfer_stream.stream_eq(self.stream)] and
    [interface.tx.stream_eq(tx_manager.packet_stream)]: the packets put
    on the bus for the bytes accepted from [self.stream]. *)
Definition interface_tx (c : config) (stream : list (Z * bool)) : list (list Z) :=
  USBInTransferManager.packets (_max_packet_size c) tx_manager_generate_zlps
                               [] stream.

(** A producer's transfer: [last] on the final byte only. *)
Fixpoint transfer (data : list Z) : list (Z * bool) :=
  match data with
  | [] => []
  | [b] => [(b, true)]
  | b :: rest => (b, false) :: transfer rest
  end.

End USBStreamInEndpoint.

(** ** USBMultibyteStreamInEndpoint *)

Module USBMultibyteStreamInEndpoint.

Import Bits.

Record config : Type := mk_config
  { _byte_width      : Z
  ; _endpoint_number : Z
  ; _max_packet_size : Z
  }.

Inductive fsm_state : Type := IDLE | TRANSMIT.

(** Width of [Signal(range(0, n + 1))]. *)
Definition bits_for (n : Z) : Z := if n <=? 0 then 1 else Z.log2 n + 1.

(** One unit of [self.stream]: payload of [byte_width * 8] bits, [first],
    [last]. *)
Record word : Type := mk_word
  { w_payload : Z
  ; w_first   : bool
  ; w_last    : bool
  }.

(** One unit handed to the inner byte-wide endpoint. *)
Record byte_token : Type := mk_byte
  { b_payload : Z
  ; b_first   : bool
  ; b_last    : bool
  }.

Record inputs : Type := mk_inputs
  { word_stream_valid : bool
  ; word_stream_data  : word
  ; byte_stream_ready : bool
  }.

Record state : Type := mk_state
  { fsm           : fsm_state
  ; data_shift    : Z
  ; first_latched : bool
  ; last_latched  : bool
  ; bytes_to_send : Z
  }.

Definition reset : state := mk_state IDLE 0 false false 0.

Section Comb.
Variable c : config.
Variable s : state.
Variable i : inputs.

Definition byte_stream_payload : Z := slice 0 8 (data_shift s).

Definition byte_stream_valid : bool :=
  match fsm s with IDLE => false | TRANSMIT => true end.

Definition is_first_byte : bool := bytes_to_send s =? _byte_width c - 1.
Definition is_last_byte : bool := bytes_to_send s =? 0.

Definition byte_stream_first : bool :=
  match fsm s with
  | IDLE => false
  | TRANSMIT => byte_stream_ready i && (first_latched s && is_first_byte)
  end.

Definition byte_stream_last : bool :=
  match fsm s with
  | IDLE => false
  | TRANSMIT => byte_stream_ready i && (last_latched s && is_last_byte)
  end.

Definition word_stream_ready : bool :=
  match fsm s with
  | IDLE => true
  | TRANSMIT => byte_stream_ready i && negb (bytes_to_send s >? 0)
  end.

(** The four registers latched from [word_stream]. *)
Definition load (next : fsm_state) : state :=
  mk_state next
           (truncate (_byte_width c * 8) (w_payload (word_stream_data i)))
           (w_first (word_stream_data i))
           (w_last (word_stream_data i))
           (truncate (bits_for (_byte_width c)) (_byte_width c - 1)).

Definition step : state :=
  match fsm s with
  | IDLE =>
      if word_stream_valid i then load TRANSMIT else s
  | TRANSMIT =>
      if byte_stream_ready i then
        if bytes_to_send s >? 0 then
          mk_state TRANSMIT
                   (slice 8 (_byte_width c * 8) (data_shift s))
                   (first_latched s) (last_latched s)
                   (bytes_to_send s - 1)
        else if word_stream_valid i then load TRANSMIT
        else mk_state IDLE (data_shift s) (first_latched s)
                      (last_latched s) (bytes_to_send s)
      else s
  end.

(** The byte handed over in this cycle, if [byte_stream.valid] and
    [byte_stream.ready] are both high. *)
Definition byte_transfer : list byte_token :=
  if byte_stream_valid && byte_stream_ready i
  then [mk_byte byte_stream_payload byte_stream_first byte_stream_last]
  else [].

(** The word taken in this cycle, if [word_stream.valid] and
    [word_stream.ready] are both high. *)
Definition word_transfer : list word :=
  if word_stream_valid i && word_stream_ready
  then [word_stream_data i] else [].

End Comb.

Fixpoint run (c : config) (s : state) (tr : list inputs) : state :=
  match tr with
  | [] => s
  | i :: tr' => run c (step c s i) tr'
  end.

(** Bytes handed to the inner endpoint during a run. *)
Fixpoint emitted (c : config) (s : state) (tr : list inputs) : list byte_token :=
  match tr with
  | [] => []
  | i :: tr' => byte_transfer c s i ++ emitted c (step c s i) tr'
  end.

(** Words taken from the producer during a run. *)
Fixpoint accepted (c : config) (s : state) (tr : list inputs) : list word :=
  match tr with
  | [] => []
  | i :: tr' => word_transfer s i ++ accepted c (step c s i) tr'
  end.

(** A producer that offers the words of [ws] in order and holds each one
    until it is taken, against a consumer whose [ready] follows
    [readys]: the bytes that reach the inner endpoint. *)
Fixpoint feed (c : config) (s : state) (ws : list word) (readys : list bool)
  : list byte_token :=
  match readys with
  | [] => []
  | r :: readys' =>
      let i := mk_inputs (match ws with [] => false | _ :: _ => true end)
                         (hd (mk_word 0 false false) ws) r in
      byte_transfer c s i
        ++ feed c (step c s i)
                (if word_stream_valid i && word_stream_ready s i
                 then tl ws else ws)
                readys'
  end.

(** *** What the byte side should see *)

(** Byte [k] of a little-endian word. *)
Definition le_byte (x : Z) (k : nat) : Z := (x / 256 ^ Z.of_nat k) mod 256.

(** The [n] bytes of a word, least significant first. *)
Definition le_bytes (n : nat) (x : Z) : list Z := map (le_byte x) (seq 0 n).

(** [last] on the final byte only. *)
Fixpoint tag_last (bs : list Z) : list byte_token :=
  match bs with
  | [] => []
  | [b] => [mk_byte b false true]
  | b :: rest => mk_byte b false false :: tag_last rest
  end.

(** [first] on the first byte only, [last] on the final byte only. *)
Definition tag (bs : list Z) : list byte_token :=
  match tag_last bs with
  | [] => []
  | t :: rest => mk_byte (b_payload t) true (b_last t) :: rest
  end.

(** [first] on the first word only, [last] on the last word only. *)
Fixpoint mark_last (ps : list Z) : list word :=
  match ps with
  | [] => []
  | [p] => [mk_word p false true]
  | p :: rest => mk_word p false false :: mark_last rest
  end.

Definition mark (ps : list Z) : list word :=
  match mark_last ps with
  | [] => []
  | w :: rest => mk_word (w_payload w) true (w_last w) :: rest
  end.

End USBMultibyteStreamInEndpoint.


(** ** The response rules as section 4.5 words them *)

Module ResponseRules.

Import USBStreamOutEndpoint.

(** NAK: a response (DATA or PING) was requested, the acceptance
    conditions fail, and the packet is not a toggle-mismatch skip case. *)
Definition nak_as_specified (c : config) (s : state) (i : inputs) : bool :=
  (data_response_requested c i || ping_response_requested c i)
  && negb (okay_to_receive c s i) && negb (should_skip c s i).

(** The same inputs with another value on the consumer's [ready]. *)
Definition with_stream_ready (r : bool) (i : inputs) : inputs :=
  mk_inputs (tokenizer_endpoint i) (tokenizer_is_out i) (tokenizer_is_ping i)
            (tokenizer_ready_for_response i) (rx_ready_for_response i)
            (rx_pid_toggle i) (rx_payload i) (rx_valid i) (rx_next i)
            (rx_first i) (rx_last i) (complete_out i) (invalid_out i) r.

(** The same registers with another value in [is_first_byte]. *)
Definition with_is_first_byte (b : bool) (s : state) : state :=
  mk_state b (expected_data_toggle s) (fifo s).

(** A cycle in which the receive stream offers a byte of a data packet
    that targets the endpoint with DATA PID [pid], while the packet is
    still going on: no response is requested yet and the boundary detector
    reports neither complete nor invalid. *)
Definition receiving (c : config) (pid : bool) (i : inputs) : bool :=
  targeting_endpoint c i && Bool.eqb (rx_pid_toggle i) pid
  && rx_next i && rx_valid i
  && negb (rx_ready_for_response i)
  && negb (complete_out i) && negb (invalid_out i).

End ResponseRules.

(** ** OUT transactions on the bus *)

Module Bus.

Import USBStreamOutEndpoint.

(** One cycle of an OUT transaction addressed to endpoint [ep]: the token
    is OUT and not PING, the packet carries DATA PID [pid]. *)
Definition cycle_for (ep : Z) (pid : bool) (payload : Z)
           (valid first last complete invalid respond ready : bool) : inputs :=
  mk_inputs ep true false false respond pid payload valid valid first last
            complete invalid ready.

(** A data byte, with the consumer's [ready] of that cycle. *)
Definition data_byte_for (ep : Z) (pid first last : bool) (b : Z * bool)
  : inputs :=
  cycle_for ep pid (fst b) true first last false false false (snd b).

Definition end_of_packet_for (ep : Z) (pid good ready : bool) : inputs :=
  cycle_for ep pid 0 false false false good (negb good) false ready.

Definition response_slot_for (ep : Z) (pid ready : bool) : inputs :=
  cycle_for ep pid 0 false false false false false true ready.

(** The data phase: [first] on the first byte, [last] on the final one. *)
Fixpoint data_bytes_for (ep : Z) (pid first : bool) (bs : list (Z * bool))
  : list inputs :=
  match bs with
  | [] => []
  | [b] => [data_byte_for ep pid first true b]
  | b :: rest =>
      data_byte_for ep pid first false b :: data_bytes_for ep pid false rest
  end.

(** A data packet whose integrity check passes, then the response slot;
    [r_end] and [r_resp] are the consumer's [ready] in those two cycles. *)
Definition good_packet_for (ep : Z) (pid : bool) (bs : list (Z * bool))
           (r_end r_resp : bool) : list inputs :=
  data_bytes_for ep pid true bs
    ++ [end_of_packet_for ep pid true r_end; response_slot_for ep pid r_resp].

(** A data packet whose integrity check fails. *)
Definition bad_packet_for (ep : Z) (pid : bool) (bs : list (Z * bool))
           (r_end : bool) : list inputs :=
  data_bytes_for ep pid true bs ++ [end_of_packet_for ep pid false r_end].

End Bus.

(** ** Bus traffic used in the examples *)

Module Traffic.

Import USBStreamOutEndpoint.

(** Endpoint 1 with max-packet-size 8 and a 16-byte buffer. *)
Definition ep1 : config := mk_config 1 8 16.

(** One cycle of an OUT transaction addressed to endpoint 1. *)
Definition out_cycle (pid : bool) (payload : Z)
           (valid first last complete invalid respond ready : bool) : inputs :=
  mk_inputs 1 true false false respond pid payload valid valid first last
            complete invalid ready.

Definition data_byte (pid first last ready : bool) (payload : Z) : inputs :=
  out_cycle pid payload true first last false false false ready.

Definition end_of_packet (pid good ready : bool) : inputs :=
  out_cycle pid 0 false false false good (negb good) false ready.

Definition response_slot (pid ready : bool) : inputs :=
  out_cycle pid 0 false false false false false true ready.

Fixpoint data_bytes (pid first ready : bool) (bs : list Z) : list inputs :=
  match bs with
  | [] => []
  | [b] => [data_byte pid first true ready b]
  | b :: rest =>
      data_byte pid first false ready b :: data_bytes pid false ready rest
  end.

(** A data packet whose integrity check passes, and the host waiting for
    the handshake. *)
Definition good_packet (pid ready : bool) (bs : list Z) : list inputs :=
  data_bytes pid true ready bs
    ++ [end_of_packet pid true ready; response_slot pid ready].

(** A data packet whose integrity check fails. *)
Definition bad_packet (pid ready : bool) (bs : list Z) : list inputs :=
  data_bytes pid true ready bs ++ [end_of_packet pid false ready].

Definition payload8 : list Z := [17; 34; 51; 68; 85; 102; 119; 136].

(** A token flagged as OUT and as PING at once, with DATA1 while DATA0 is
    expected, and the tokenizer asking for a response. *)
Definition both_flags : inputs :=
  mk_inputs 1 true true true false true 0 false false false false false false
            false.

(** The same token with the receiver asking for a DATA response too. *)
Definition both_flags_data : inputs :=
  mk_inputs 1 true true true true true 0 false false false false false false
            false.

(** A cycle without bus traffic in which the consumer is ready. *)
Definition drain : inputs := out_cycle false 0 false false false false false false true.

(** A PING token for endpoint 1. *)
Definition ping_token : inputs :=
  mk_inputs 1 false true true false false 0 false false false false false false
            false.

End Traffic.

(** ** Bookkeeping for the word adapter *)

Module WordAdapter.

Import Bits USBMultibyteStreamInEndpoint.

(** The bytes one word should put on the byte stream: little-endian,
    [first] on byte 0 if the word carries it, [last] on the final byte if
    the word carries it. *)
Definition word_tokens (n : nat) (w : word) : list byte_token :=
  map (fun k => mk_byte (le_byte (w_payload w) k)
                        (w_first w && (k =? 0)%nat)
                        (w_last w && (S k =? n)%nat))
      (seq 0 n).

(** The bytes still to come out of the shift register when [n] is the
    value of [bytes_to_send]. *)
Fixpoint shift_tokens (width : Z) (fl ll : bool) (d : Z) (n : nat)
  : list byte_token :=
  mk_byte (slice 0 8 d) (fl && (Z.of_nat n =? width - 1)) (ll && (Z.of_nat n =? 0))
  :: match n with
     | O => []
     | S n' => shift_tokens width fl ll (slice 8 (width * 8) d) n'
     end.

Definition in_flight (c : config) (s : state) : list byte_token :=
  match fsm s with
  | IDLE => []
  | TRANSMIT =>
      shift_tokens (_byte_width c) (first_latched s) (last_latched s)
                   (data_shift s) (Z.to_nat (bytes_to_send s))
  end.

(** The registers in TRANSMIT hold a counter within the word and no more
    bytes than the counter announces. *)
Definition transmitting (c : config) (s : state) : Prop :=
  fsm s = TRANSMIT
  /\ 0 <= bytes_to_send s <= _byte_width c - 1
  /\ 0 <= data_shift s < 256 ^ (bytes_to_send s + 1).

(** A word whose payload fits the [byte_width * 8] bits of the stream. *)
Definition fits (c : config) (w : word) : Prop :=
  0 <= w_payload w < 256 ^ _byte_width c.

(** Cycles in which the inner endpoint is ready. *)
Definition ready_cycles (readys : list bool) : nat :=
  count_occ bool_dec readys true.

Definition plain (bs : list Z) : list byte_token :=
  map (fun b => mk_byte b false false) bs.

Definition set_first (ts : list byte_token) : list byte_token :=
  match ts with
  | [] => []
  | t :: rest => mk_byte (b_payload t) true (b_last t) :: rest
  end.

(** Two words of four bytes. *)
Definition ep4 : config := mk_config 4 1 64.
Definition two_words : list Z := [67305985; 134678021].

End WordAdapter.
(** * Properties of the OUT endpoint *)

Module OutEndpointFacts.

Import Bits USBStreamOutEndpoint ResponseRules.

(** Unfolds the combinational signals down to the inputs and registers. *)
Ltac comb :=
  unfold handshakes_out_ack, handshakes_out_nak, fifo_write_en,
    fifo_write_commit, fifo_write_discard, fifo_read_en,
    data_response_requested, ping_response_requested, okay_to_receive,
    should_skip, targeting_endpoint, expected_pid_match, sufficient_space,
    endpoint_number_matches in *.

(** Case analysis on every boolean a goal about one cycle depends on. *)
Ltac bool_cases :=
  repeat match goal with
    | |- context [Bool.eqb ?a ?b] => destruct a, b; cbn [Bool.eqb]
    | |- context [?a =? ?b] => destruct (a =? b)
    | |- context [?a >=? ?b] => destruct (a >=? b)
    | |- context [tokenizer_is_out ?i] => destruct (tokenizer_is_out i)
    | |- context [tokenizer_is_ping ?i] => destruct (tokenizer_is_ping i)
    | |- context [tokenizer_ready_for_response ?i] =>
        destruct (tokenizer_ready_for_response i)
    | |- context [rx_ready_for_response ?i] => destruct (rx_ready_for_response i)
    end; cbn.

(** ** One cycle *)

Lemma skip_excludes_receive c s i :
  should_skip c s i && okay_to_receive c s i = false.
Proof. comb. bool_cases; reflexivity. Qed.

Lemma nak_excludes_receive c s i :
  handshakes_out_nak c s i && okay_to_receive c s i = false.
Proof. comb. bool_cases; reflexivity. Qed.

Lemma toggle_step c s i :
  expected_data_toggle (step c s i)
  = xorb (expected_data_toggle s)
         (data_response_requested c i && okay_to_receive c s i).
Proof.
  unfold step; cbn [expected_data_toggle].
  destruct (data_response_requested c i && okay_to_receive c s i),
    (expected_data_toggle s); reflexivity.
Qed.

Lemma nak_code c s i :
  handshakes_out_nak c s i = true <->
  (data_response_requested c i = true /\ okay_to_receive c s i = false
   /\ should_skip c s i = false)
  \/ (ping_response_requested c i = true /\ okay_to_receive c s i = false).
Proof.
  unfold handshakes_out_nak.
  destruct (data_response_requested c i), (ping_response_requested c i),
    (okay_to_receive c s i), (should_skip c s i); cbn; intuition congruence.
Qed.

Lemma ack_code c s i :
  handshakes_out_ack c s i = true <->
  (data_response_requested c i = true /\ okay_to_receive c s i = true)
  \/ (ping_response_requested c i = true /\ okay_to_receive c s i = true)
  \/ (data_response_requested c i = true /\ should_skip c s i = true).
Proof.
  unfold handshakes_out_ack.
  destruct (data_response_requested c i), (ping_response_requested c i),
    (okay_to_receive c s i), (should_skip c s i); cbn; intuition congruence.
Qed.

(** A PING token that is not also an OUT token never targets the
    endpoint, so neither acceptance nor skip can hold for it. *)
Lemma exclusive_ping c s i :
  tokenizer_is_out i && tokenizer_is_ping i = false ->
  ping_response_requested c i = true ->
  okay_to_receive c s i = false /\ should_skip c s i = false
  /\ data_response_requested c i = false.
Proof.
  comb. destruct (tokenizer_is_out i), (tokenizer_is_ping i); cbn;
    rewrite ?andb_false_r; cbn; try discriminate; auto.
Qed.

Lemma nak_specified_when_exclusive c s i :
  tokenizer_is_out i && tokenizer_is_ping i = false ->
  handshakes_out_nak c s i = nak_as_specified c s i.
Proof.
  intros Hx. unfold handshakes_out_nak, nak_as_specified.
  destruct (ping_response_requested c i) eqn:Hp.
  - destruct (exclusive_ping c s i Hx Hp) as (-> & -> & ->). reflexivity.
  - destruct (data_response_requested c i), (okay_to_receive c s i),
      (should_skip c s i); reflexivity.
Qed.

(** ** Runs *)

Lemma run_app c s tr1 tr2 :
  run c s (tr1 ++ tr2) = run c (run c s tr1) tr2.
Proof. revert s; induction tr1; intros; cbn; auto. Qed.

Lemma delivered_app c s tr1 tr2 :
  delivered c s (tr1 ++ tr2)
  = delivered c s tr1 ++ delivered c (run c s tr1) tr2.
Proof.
  revert s; induction tr1; intros; cbn; auto.
  rewrite IHtr1, app_assoc. reflexivity.
Qed.

Lemma toggle_run c s tr :
  expected_data_toggle (run c s tr)
  = xorb (expected_data_toggle s) (Nat.odd (acceptances c s tr)).
Proof.
  revert s; induction tr as [|i tr IH]; intros s; cbn [run acceptances].
  - cbn. now rewrite xorb_false_r.
  - rewrite IH, toggle_step.
    destruct (data_response_requested c i && okay_to_receive c s i).
    + change (1 + ?n)%nat with (S n). rewrite Nat.odd_succ, <- Nat.negb_odd.
      destruct (expected_data_toggle s), (Nat.odd (acceptances c (step c s i) tr));
        reflexivity.
    + cbn. now rewrite xorb_false_r.
Qed.

(** ** The buffer seen from the endpoint *)

Lemma fifo_depth_step c s i : FIFO.depth (fifo (step c s i)) = FIFO.depth (fifo s).
Proof.
  unfold step, FIFO.step, FIFO.finish, FIFO.write, FIFO.read; cbn [fifo].
  repeat match goal with |- context [if ?b then _ else _] => destruct b end;
    reflexivity.
Qed.

Lemma fifo_depth_run c s tr : FIFO.depth (fifo (run c s tr)) = FIFO.depth (fifo s).
Proof.
  revert s; induction tr as [|i tr IH]; intros s; cbn [run]; auto.
  now rewrite IH, fifo_depth_step.
Qed.

Lemma space_le_depth f : FIFO.space_available f <= FIFO.depth f.
Proof. unfold FIFO.space_available, FIFO.occupancy. lia. Qed.

(** The queue after a clock edge: the head leaves on a read, a closed run
    joins at the back. *)
Lemma committed_step c s i :
  FIFO.committed (fifo (step c s i))
  = (if fifo_read_en i then tl (FIFO.committed (fifo s))
     else FIFO.committed (fifo s))
    ++ (if fifo_write_discard c i then []
        else if fifo_write_commit c i
             then FIFO.pending (FIFO.write (fifo_write_en c s i) (fifo_write_data i)
                                           (FIFO.read (fifo_read_en i) (fifo s)))
             else []).
Proof.
  unfold step, FIFO.step, FIFO.finish; cbn [fifo].
  destruct (fifo_write_discard c i), (fifo_write_commit c i); cbn [FIFO.committed];
    rewrite ?app_nil_r;
    unfold FIFO.write, FIFO.read;
    repeat match goal with |- context [if ?b then _ else _] => destruct b end;
    reflexivity.
Qed.

Lemma pending_step c s i :
  FIFO.pending (fifo (step c s i))
  = if fifo_write_discard c i || fifo_write_commit c i then []
    else FIFO.pending (FIFO.write (fifo_write_en c s i) (fifo_write_data i)
                                  (FIFO.read (fifo_read_en i) (fifo s))).
Proof.
  unfold step, FIFO.step, FIFO.finish; cbn [fifo].
  destruct (fifo_write_discard c i), (fifo_write_commit c i); reflexivity.
Qed.

Lemma pending_write_off d (f : FIFO.t) re :
  FIFO.pending (FIFO.write false d (FIFO.read re f)) = FIFO.pending f.
Proof. unfold FIFO.write, FIFO.read. destruct re; reflexivity. Qed.

(** What the consumer takes in a cycle is the head of the queue. *)
Lemma head_then_rest s i :
  (if stream_valid s && stream_ready i then [FIFO.read_data (fifo s)] else [])
    ++ (if fifo_read_en i then tl (FIFO.committed (fifo s))
        else FIFO.committed (fifo s))
  = FIFO.committed (fifo s).
Proof.
  unfold stream_valid, fifo_read_en, FIFO.empty, FIFO.read_data.
  destruct (FIFO.committed (fifo s)), (stream_ready i); reflexivity.
Qed.

(** First in, first out: what has been delivered followed by what is still
    queued is the old queue followed by the runs committed since. *)
Lemma delivered_in_order c s tr :
  exists newer,
    delivered c s tr ++ FIFO.committed (fifo (run c s tr))
    = FIFO.committed (fifo s) ++ newer.
Proof.
  revert s; induction tr as [|i tr IH]; intros s; cbn [delivered run].
  - exists []. now rewrite app_nil_r.
  - destruct (IH (step c s i)) as [newer Hn].
    rewrite <- app_assoc, Hn, committed_step, !app_assoc, head_then_rest.
    rewrite <- app_assoc. eauto.
Qed.

(** While no run is committed the queue only shrinks, by what is delivered. *)
Lemma delivered_without_commit c s tr :
  Forall (fun i => fifo_write_commit c i = false) tr ->
  delivered c s tr ++ FIFO.committed (fifo (run c s tr)) = FIFO.committed (fifo s).
Proof.
  intros H; revert s; induction H as [|i tr Hi _ IH]; intros s;
    cbn [delivered run]; auto.
  rewrite <- app_assoc, IH, committed_step, Hi.
  destruct (fifo_write_discard c i); now rewrite app_nil_r, head_then_rest.
Qed.

(** Nothing is delivered while the consumer is not ready. *)
Lemma stall_delivers_nothing c s tr :
  Forall (fun i => stream_ready i = false) tr -> delivered c s tr = [].
Proof.
  intros H; revert s; induction H as [|i tr Hi _ IH]; intros s;
    cbn [delivered]; auto.
  now rewrite Hi, andb_false_r, IH.
Qed.

(** ** The FIFO entry format *)

Lemma write_data_first i : bit 9 (fifo_write_data i) = rx_first i.
Proof.
  unfold bit, fifo_write_data, truncate, b2z.
  assert (0 <= rx_payload i mod 2 ^ 8 < 256) by (apply Z.mod_pos_bound; lia).
  replace (rx_payload i mod 2 ^ 8 + 256 * (if rx_last i then 1 else 0)
           + 512 * (if rx_first i then 1 else 0))
    with ((rx_payload i mod 2 ^ 8 + 256 * (if rx_last i then 1 else 0))
          + (if rx_first i then 1 else 0) * 2 ^ 9) by (destruct (rx_first i); lia).
  rewrite Z.testbit_eqb by lia.
  rewrite Z.div_add by lia.
  rewrite Z.div_small by (destruct (rx_last i); lia).
  destruct (rx_first i); reflexivity.
Qed.

Lemma write_data_last i : bit 8 (fifo_write_data i) = rx_last i.
Proof.
  unfold bit, fifo_write_data, truncate, b2z.
  assert (0 <= rx_payload i mod 2 ^ 8 < 256) by (apply Z.mod_pos_bound; lia).
  rewrite Z.testbit_eqb by lia.
  replace (rx_payload i mod 2 ^ 8 + 256 * (if rx_last i then 1 else 0)
           + 512 * (if rx_first i then 1 else 0))
    with (rx_payload i mod 2 ^ 8
          + ((if rx_last i then 1 else 0) + 2 * (if rx_first i then 1 else 0)) * 2 ^ 8)
    by (destruct (rx_first i), (rx_last i); lia).
  rewrite Z.div_add by lia.
  rewrite Z.div_small by lia.
  destruct (rx_first i), (rx_last i); reflexivity.
Qed.

Lemma write_data_payload i :
  slice 0 8 (fifo_write_data i) = rx_payload i mod 256.
Proof.
  unfold slice, fifo_write_data, truncate, b2z.
  rewrite Z.shiftr_0_r.
  replace (rx_payload i mod 2 ^ 8 + 256 * (if rx_last i then 1 else 0)
           + 512 * (if rx_first i then 1 else 0))
    with (rx_payload i mod 2 ^ 8
          + ((if rx_last i then 1 else 0) + 2 * (if rx_first i then 1 else 0)) * 2 ^ (8 - 0))
    by (destruct (rx_first i), (rx_last i); lia).
  rewrite Z.mod_add by lia.
  change (2 ^ (8 - 0)) with 256. change (2 ^ 8) with 256.
  apply Z.mod_mod; lia.
Qed.

(** ** Receiving a packet *)

Lemma trace_app c s tr1 tr2 :
  trace c s (tr1 ++ tr2) = trace c s tr1 ++ trace c (run c s tr1) tr2.
Proof.
  revert s; induction tr1 as [|i tr1 IH]; intros s; cbn [trace run app]; auto.
  now rewrite IH.
Qed.

Lemma written_app c s tr1 tr2 :
  written c s (tr1 ++ tr2) = written c s tr1 ++ written c (run c s tr1) tr2.
Proof.
  revert s; induction tr1 as [|i tr1 IH]; intros s; cbn [written run app]; auto.
  now rewrite IH, app_assoc.
Qed.

(** Without a request for a response on a token that is not PING neither
    handshake is driven. *)
Lemma quiet_cycle c s i :
  rx_ready_for_response i = false ->
  tokenizer_is_ping i = false ->
  handshakes_out_ack c s i = false /\ handshakes_out_nak c s i = false.
Proof.
  intros Hr Hp. comb. rewrite Hr, Hp, !andb_false_r. cbn. auto.
Qed.

Lemma space_after_read f re :
  FIFO.space_available f <= FIFO.space_available (FIFO.read re f).
Proof.
  unfold FIFO.read, FIFO.space_available, FIFO.occupancy.
  destruct re; cbn [FIFO.depth FIFO.committed FIFO.pending]; [| lia].
  destruct (FIFO.committed f); cbn [tl length]; lia.
Qed.

Lemma fifo_step_store f d re :
  1 <= FIFO.space_available f ->
  FIFO.step true d false false re f
  = FIFO.mk (FIFO.depth f)
            (if re then tl (FIFO.committed f) else FIFO.committed f)
            (FIFO.pending f ++ [d]).
Proof.
  intros Hsp. pose proof (space_after_read f re) as Hr.
  unfold FIFO.step, FIFO.finish, FIFO.write, FIFO.full.
  replace (FIFO.space_available (FIFO.read re f) <=? 0) with false
    by (symmetry; apply Z.leb_gt; lia).
  cbn [andb negb]. unfold FIFO.read. destruct re; reflexivity.
Qed.

Lemma receiving_signals c pid i :
  receiving c pid i = true ->
  targeting_endpoint c i = true /\ rx_pid_toggle i = pid
  /\ rx_next i = true /\ rx_valid i = true
  /\ rx_ready_for_response i = false
  /\ complete_out i = false /\ invalid_out i = false.
Proof.
  unfold receiving. intros H.
  rewrite !andb_true_iff, !negb_true_iff in H.
  destruct H as [[[[[[Htg Hpid] Hn] Hv] Hr] Hc] Hd].
  apply eqb_prop in Hpid. repeat split; assumption.
Qed.

(** A byte offered while the expected PID matches and max-packet-size
    bytes are free is stored as a speculative entry, whether or not the
    consumer is ready. *)
Lemma receiving_step c pid s i :
  1 <= _max_packet_size c ->
  receiving c pid i = true ->
  expected_data_toggle s = pid ->
  _max_packet_size c <= FIFO.space_available (fifo s) ->
  fifo_write_en c s i = true
  /\ fifo_write_commit c i = false
  /\ expected_data_toggle (step c s i) = pid
  /\ fifo (step c s i)
     = FIFO.mk (FIFO.depth (fifo s))
               (if stream_ready i then tl (FIFO.committed (fifo s))
                else FIFO.committed (fifo s))
               (FIFO.pending (fifo s) ++ [fifo_write_data i])
  /\ FIFO.space_available (fifo s) - 1
     <= FIFO.space_available (fifo (step c s i)).
Proof.
  intros Hmps Hrx Ht Hsp.
  destruct (receiving_signals c pid i Hrx) as (Htg & Hpid & Hn & Hv & Hr & Hc & Hd).
  assert (Hen : fifo_write_en c s i = true).
  { unfold fifo_write_en, okay_to_receive, expected_pid_match, sufficient_space.
    rewrite Htg, Hn, Hv, Hpid, Ht, eqb_reflx.
    replace (FIFO.space_available (fifo s) >=? _max_packet_size c) with true
      by (symmetry; rewrite Z.geb_leb; apply Z.leb_le; lia).
    reflexivity. }
  assert (Hcm : fifo_write_commit c i = false)
    by (unfold fifo_write_commit; now rewrite Hc, andb_false_r).
  assert (Hds : fifo_write_discard c i = false)
    by (unfold fifo_write_discard; now rewrite Hd, andb_false_r).
  assert (Hst : fifo (step c s i)
                = FIFO.mk (FIFO.depth (fifo s))
                          (if stream_ready i then tl (FIFO.committed (fifo s))
                           else FIFO.committed (fifo s))
                          (FIFO.pending (fifo s) ++ [fifo_write_data i])).
  { unfold step; cbn [fifo]. rewrite Hen, Hcm, Hds.
    unfold fifo_read_en. apply fifo_step_store. lia. }
  repeat split; auto.
  - rewrite toggle_step. unfold data_response_requested.
    rewrite Hr, andb_false_r. cbn. now rewrite xorb_false_r.
  - rewrite Hst. unfold FIFO.space_available, FIFO.occupancy.
    cbn [FIFO.depth FIFO.committed FIFO.pending]. rewrite length_app. cbn [length].
    destruct (stream_ready i); [| lia].
    destruct (FIFO.committed (fifo s)); cbn [tl length]; lia.
Qed.

Lemma receiving_run c pid tr : forall s,
  1 <= _max_packet_size c ->
  Forall (fun i => receiving c pid i = true) tr ->
  expected_data_toggle s = pid ->
  _max_packet_size c + Z.of_nat (length tr) - 1 <= FIFO.space_available (fifo s) ->
  written c s tr = map fifo_write_data tr
  /\ Forall (fun i => fifo_write_commit c i = false) tr
  /\ expected_data_toggle (run c s tr) = pid
  /\ FIFO.pending (fifo (run c s tr)) = FIFO.pending (fifo s) ++ map fifo_write_data tr
  /\ FIFO.space_available (fifo s) - Z.of_nat (length tr)
     <= FIFO.space_available (fifo (run c s tr)).
Proof.
  induction tr as [|i tr IH]; intros s Hmps Hall Ht Hsp.
  - cbn. rewrite app_nil_r. repeat split; auto. lia.
  - apply Forall_cons_iff in Hall as [Hi Htr].
    cbn [length] in Hsp.
    destruct (receiving_step c pid s i Hmps Hi Ht) as (Hw & Hc & Ht' & Hst & Hs');
      [lia |].
    destruct (IH (step c s i) Hmps Htr Ht') as (IHw & IHc & IHt & IHp & IHs);
      [lia |].
    cbn [map written run length].
    rewrite IHw, IHt, IHp, Hw, Hst. cbn [FIFO.pending]. rewrite <- app_assoc.
    repeat split; auto. cbn [length] in *. lia.
Qed.

Lemma quiet_run c tr : forall s,
  Forall (fun i => rx_ready_for_response i = false
                   /\ tokenizer_is_ping i = false) tr ->
  map out_ack (trace c s tr) = repeat false (length tr)
  /\ map out_nak (trace c s tr) = repeat false (length tr).
Proof.
  induction tr as [|i tr IH]; intros s Hall; [split; reflexivity |].
  apply Forall_cons_iff in Hall as [[Hr Hp] Htr].
  destruct (quiet_cycle c s i Hr Hp) as [Ha Hn].
  destruct (IH (step c s i) Htr) as [IHa IHn].
  cbn [trace map drive out_ack out_nak length repeat].
  now rewrite IHa, IHn, Ha, Hn.
Qed.

End OutEndpointFacts.

(** * What the OUT endpoint guarantees *)

Module OutEndpointClaims.

Import Bits USBStreamOutEndpoint ResponseRules Traffic OutEndpointFacts.

(** ** Handshakes *)

(** C9: when the tokenizer does not flag the token as OUT and PING at the
    same time, ACK and NAK are never asserted in the same cycle. *)
Theorem ack_nak_exclusive c s i :
  tokenizer_is_out i && tokenizer_is_ping i = false ->
  handshakes_out_ack c s i && handshakes_out_nak c s i = false.
Proof.
  intros Hx.
  destruct (ping_response_requested c i) eqn:Hp.
  - destruct (exclusive_ping c s i Hx Hp) as (Ho & Hs & Hd).
    unfold handshakes_out_ack. rewrite Ho, Hs, Hd, Hp. reflexivity.
  - unfold handshakes_out_ack, handshakes_out_nak. rewrite Hp.
    pose proof (skip_excludes_receive c s i) as Hse.
    destruct (data_response_requested c i), (okay_to_receive c s i),
      (should_skip c s i); cbn in *; congruence.
Qed.

Lemma ack_nak_exclusive_witness :
  handshakes_out_ack ep1 (reset ep1) (response_slot false false)
  && handshakes_out_nak ep1 (reset ep1) (response_slot false false) = false.
Proof. apply ack_nak_exclusive. reflexivity. Defined.

(** C3, as stated, fails: for a PING response request on a token that is
    also flagged OUT and carries the unexpected DATA PID, the endpoint
    drives NAK although the packet is a toggle-mismatch skip case. *)
Lemma nak_on_skipped_ping :
  ping_response_requested ep1 both_flags = true
  /\ should_skip ep1 (reset ep1) both_flags = true
  /\ handshakes_out_nak ep1 (reset ep1) both_flags = true
  /\ nak_as_specified ep1 (reset ep1) both_flags = false.
Proof. repeat split; reflexivity. Qed.

(** C3, amended: ACK is asserted exactly when (a) a DATA response is
    requested and okay_to_receive holds, (b) a PING response is requested
    and okay_to_receive holds, or (c) a DATA response is requested and
    should_skip holds; NAK is asserted exactly when a DATA response is
    requested with neither okay_to_receive nor should_skip, or a PING
    response is requested without okay_to_receive.  For a token not flagged
    OUT and PING at once this NAK condition is the one of section 4.5. *)
Theorem handshake_rules c s i :
  (handshakes_out_ack c s i = true <->
   (data_response_requested c i = true /\ okay_to_receive c s i = true)
   \/ (ping_response_requested c i = true /\ okay_to_receive c s i = true)
   \/ (data_response_requested c i = true /\ should_skip c s i = true))
  /\ (handshakes_out_nak c s i = true <->
      (data_response_requested c i = true /\ okay_to_receive c s i = false
       /\ should_skip c s i = false)
      \/ (ping_response_requested c i = true /\ okay_to_receive c s i = false))
  /\ (tokenizer_is_out i && tokenizer_is_ping i = false ->
      handshakes_out_nak c s i = nak_as_specified c s i).
Proof.
  split; [apply ack_code | split; [apply nak_code |]].
  apply nak_specified_when_exclusive.
Qed.

(** ** Data toggle *)

(** C1: the expected data toggle flips in exactly the cycles in which a
    DATA response is requested and okay_to_receive holds; it keeps its
    value on the skip-but-ack path and whenever NAK is driven; so after any
    run it is the initial toggle XORed with the parity of the number of
    acceptances, which from reset is that parity itself. *)
Theorem data_toggle_tracks_acceptances c s i tr :
  expected_data_toggle (step c s i)
  = xorb (expected_data_toggle s)
         (data_response_requested c i && okay_to_receive c s i)
  /\ (data_response_requested c i && should_skip c s i = true ->
      expected_data_toggle (step c s i) = expected_data_toggle s)
  /\ (handshakes_out_nak c s i = true ->
      expected_data_toggle (step c s i) = expected_data_toggle s)
  /\ expected_data_toggle (run c s tr)
     = xorb (expected_data_toggle s) (Nat.odd (acceptances c s tr))
  /\ expected_data_toggle (run c (reset c) tr)
     = Nat.odd (acceptances c (reset c) tr).
Proof.
  repeat split.
  - apply toggle_step.
  - intros H. rewrite toggle_step.
    pose proof (skip_excludes_receive c s i).
    destruct (data_response_requested c i), (should_skip c s i),
      (okay_to_receive c s i); cbn in *; try discriminate.
    apply xorb_false_r.
  - intros H. rewrite toggle_step.
    pose proof (nak_excludes_receive c s i) as Hn. rewrite H in Hn.
    cbn in Hn. rewrite Hn, andb_false_r. apply xorb_false_r.
  - apply toggle_run.
  - rewrite toggle_run. reflexivity.
Qed.

(** ** The unused register *)

Lemma first_byte_step c s b i :
  exists b', step c (with_is_first_byte b s) i = with_is_first_byte b' (step c s i).
Proof.
  unfold step, with_is_first_byte; cbn.
  eexists. reflexivity.
Qed.

Lemma drive_first_byte c s b i :
  drive c (with_is_first_byte b s) i = drive c s i.
Proof. reflexivity. Qed.

Lemma first_byte_idem b b' s :
  with_is_first_byte b (with_is_first_byte b' s) = with_is_first_byte b s.
Proof. reflexivity. Qed.

Lemma trace_first_byte c tr : forall s b,
  trace c (with_is_first_byte b s) tr = trace c s tr.
Proof.
  induction tr as [|i tr IH]; intros s b; cbn [trace]; auto.
  rewrite drive_first_byte.
  destruct (first_byte_step c s b i) as [b' ->].
  now rewrite IH.
Qed.

Lemma run_first_byte c tr : forall s b,
  exists b', run c (with_is_first_byte b s) tr = with_is_first_byte b' (run c s tr).
Proof.
  induction tr as [|i tr IH]; intros s b; cbn [run].
  - eauto.
  - destruct (first_byte_step c s b i) as [b' ->]. apply IH.
Qed.

(** C10: the is_first_byte register resets to 1 and is loaded with the
    stream's last bit on every consumer-side transfer, yet it influences
    nothing: two runs that differ only in its value drive the same ACK,
    NAK, valid, payload, first and last in every cycle and keep the same
    toggle and buffer, the stream's first bit being bit 9 of the FIFO
    entry, which is written from the boundary detector's first. *)
Theorem is_first_byte_unobservable c s b tr :
  trace c (with_is_first_byte b s) tr = trace c s tr
  /\ expected_data_toggle (run c (with_is_first_byte b s) tr)
     = expected_data_toggle (run c s tr)
  /\ fifo (run c (with_is_first_byte b s) tr) = fifo (run c s tr)
  /\ stream_first s = Z.testbit (FIFO.read_data (fifo s)) 9
  /\ (forall i, Z.testbit (fifo_write_data i) 9 = rx_first i)
  /\ is_first_byte (reset c) = true
  /\ (forall i, is_first_byte (step c s i)
                = if stream_valid s && stream_ready i then stream_last s
                  else is_first_byte s).
Proof.
  destruct (run_first_byte c tr s b) as [b' Hb].
  repeat split; try reflexivity.
  - apply trace_first_byte.
  - now rewrite Hb.
  - now rewrite Hb.
  - apply write_data_first.
Qed.

(** ** Commit and discard *)

Lemma rest_of_queue (A : Type) (xs ys l : list A) :
  xs ++ ys = l -> ys = skipn (length xs) l.
Proof.
  intros <-. rewrite skipn_app, skipn_all, Nat.sub_diag. reflexivity.
Qed.

(** C2: the speculative run is committed exactly when the boundary
    detector reports complete while the token targets the endpoint and
    discarded exactly when it reports invalid while the token targets the
    endpoint; and when a packet received without any commit ends with a
    discard, nothing is left of its run: what the consumer has been handed
    plus what is still queued is exactly what had been committed before
    the packet, and the buffer is the old queue less the entries handed
    over, as if the packet had never been written. *)
Theorem corrupted_packet_never_visible c s tr i_end :
  Forall (fun i => fifo_write_commit c i = false) tr ->
  fifo_write_commit c i_end = false ->
  fifo_write_discard c i_end = true ->
  (forall i, fifo_write_commit c i = targeting_endpoint c i && complete_out i)
  /\ (forall i, fifo_write_discard c i = targeting_endpoint c i && invalid_out i)
  /\ FIFO.pending (fifo (run c s (tr ++ [i_end]))) = []
  /\ FIFO.depth (fifo (run c s (tr ++ [i_end]))) = FIFO.depth (fifo s)
  /\ delivered c s (tr ++ [i_end])
       ++ FIFO.committed (fifo (run c s (tr ++ [i_end])))
     = FIFO.committed (fifo s)
  /\ fifo (run c s (tr ++ [i_end]))
     = FIFO.mk (FIFO.depth (fifo s))
               (skipn (length (delivered c s (tr ++ [i_end])))
                      (FIFO.committed (fifo s)))
               [].
Proof.
  intros Htr Hc Hd.
  assert (Hp : FIFO.pending (fifo (run c s (tr ++ [i_end]))) = []).
  { rewrite run_app. cbn [run]. now rewrite pending_step, Hd. }
  assert (Hq : delivered c s (tr ++ [i_end])
                 ++ FIFO.committed (fifo (run c s (tr ++ [i_end])))
               = FIFO.committed (fifo s)).
  { apply delivered_without_commit.
    apply Forall_app. split; [assumption | now constructor]. }
  pose proof (fifo_depth_run c s (tr ++ [i_end])) as Hdepth.
  repeat split; auto.
  apply rest_of_queue in Hq.
  destruct (fifo (run c s (tr ++ [i_end]))) as [d cm pn].
  cbn [FIFO.depth FIFO.committed FIFO.pending] in *. congruence.
Qed.

Lemma corrupted_packet_never_visible_witness :
  let s := run ep1 (reset ep1) (good_packet false false payload8) in
  let tr := data_bytes true true true [1; 2; 3] in
  let i_end := end_of_packet true false true in
  written ep1 s tr = [513; 2; 259]
  /\ FIFO.pending (fifo (run ep1 s (tr ++ [i_end]))) = []
  /\ delivered ep1 s (tr ++ [i_end])
       ++ FIFO.committed (fifo (run ep1 s (tr ++ [i_end])))
     = FIFO.committed (fifo s).
Proof.
  cbv zeta. split; [reflexivity |].
  destruct (corrupted_packet_never_visible ep1
              (run ep1 (reset ep1) (good_packet false false payload8))
              (data_bytes true true true [1; 2; 3])
              (end_of_packet true false true))
    as (_ & _ & Hp & _ & Hv & _).
  - repeat constructor.
  - reflexivity.
  - reflexivity.
  - split; assumption.
Defined.

(** ** Retransmitted packets *)

Lemma should_skip_toggle c s s' i :
  expected_data_toggle s' = expected_data_toggle s ->
  should_skip c s' i = should_skip c s i.
Proof. unfold should_skip, expected_pid_match. now intros ->. Qed.

Lemma skip_step c s i :
  should_skip c s i = true ->
  okay_to_receive c s i = false
  /\ fifo_write_en c s i = false
  /\ handshakes_out_ack c s i = data_response_requested c i
  /\ expected_data_toggle (step c s i) = expected_data_toggle s.
Proof.
  intros Hs. pose proof (skip_excludes_receive c s i) as Ho.
  rewrite Hs in Ho. cbn in Ho.
  repeat split; auto.
  - unfold fifo_write_en. now rewrite Ho.
  - unfold handshakes_out_ack. rewrite Ho, Hs, !andb_false_r, andb_true_r.
    reflexivity.
  - rewrite toggle_step, Ho, andb_false_r. apply xorb_false_r.
Qed.

Lemma skip_run c tr : forall s,
  FIFO.pending (fifo s) = [] ->
  Forall (fun i => should_skip c s i = true) tr ->
  map out_ack (trace c s tr) = map (data_response_requested c) tr
  /\ written c s tr = []
  /\ expected_data_toggle (run c s tr) = expected_data_toggle s
  /\ FIFO.pending (fifo (run c s tr)) = []
  /\ delivered c s tr ++ FIFO.committed (fifo (run c s tr))
     = FIFO.committed (fifo s).
Proof.
  induction tr as [|i tr IH]; intros s Hp Hall.
  - cbn. auto.
  - inversion Hall as [|? ? Hi Htr]; subst.
    destruct (skip_step c s i Hi) as (Ho & Hw & Ha & Ht).
    assert (Hp' : FIFO.pending (fifo (step c s i)) = []).
    { rewrite pending_step, Hw, pending_write_off, Hp.
      now destruct (fifo_write_discard c i || fifo_write_commit c i). }
    assert (Hall' : Forall (fun j => should_skip c (step c s i) j = true) tr).
    { eapply Forall_impl; [| exact Htr]. cbn. intros j Hj.
      now rewrite (should_skip_toggle c s (step c s i) j Ht). }
    destruct (IH (step c s i) Hp' Hall') as (IHa & IHw & IHt & IHp & IHd).
    cbn [trace map written run delivered drive out_ack].
    rewrite IHa, Ha, IHw, Hw, IHt, Ht, IHp. repeat split; auto.
    rewrite <- app_assoc, IHd, committed_step, Hw, pending_write_off, Hp.
    destruct (fifo_write_discard c i), (fifo_write_commit c i);
      now rewrite app_nil_r, head_then_rest.
Qed.

(** C4: while an OUT data packet targets the endpoint with a DATA PID
    other than the expected one, the endpoint answers every request for a
    DATA response with ACK, strobes nothing into the FIFO and keeps its
    toggle; with no run open when the packet starts, the bytes handed to
    the consumer plus the bytes still queued stay exactly the queue of
    before, so a duplicate leaves the consumer-visible stream as it was. *)
Theorem duplicate_acked_not_buffered c s tr :
  FIFO.pending (fifo s) = [] ->
  Forall (fun i => should_skip c s i = true) tr ->
  map out_ack (trace c s tr) = map (data_response_requested c) tr
  /\ written c s tr = []
  /\ expected_data_toggle (run c s tr) = expected_data_toggle s
  /\ FIFO.pending (fifo (run c s tr)) = []
  /\ delivered c s tr ++ FIFO.committed (fifo (run c s tr))
     = FIFO.committed (fifo s).
Proof. apply skip_run. Qed.

Lemma duplicate_acked_not_buffered_witness :
  let s := run ep1 (reset ep1) (good_packet false false payload8) in
  let tr := good_packet false false payload8 in
  length (FIFO.committed (fifo s)) = 8%nat
  /\ map out_ack (trace ep1 s tr) = map (data_response_requested ep1) tr
  /\ written ep1 s tr = []
  /\ expected_data_toggle (run ep1 s tr) = expected_data_toggle s
  /\ FIFO.pending (fifo (run ep1 s tr)) = []
  /\ delivered ep1 s tr ++ FIFO.committed (fifo (run ep1 s tr))
     = FIFO.committed (fifo s).
Proof.
  cbv zeta. split; [reflexivity |].
  apply (duplicate_acked_not_buffered ep1
           (run ep1 (reset ep1) (good_packet false false payload8))
           (good_packet false false payload8)).
  - reflexivity.
  - repeat constructor.
Defined.

(** ** Backpressure *)

(** C6: the FIFO's read enable is the consumer's ready, so the queue loses
    its head exactly in the cycles the consumer is ready; in any run the
    bytes delivered followed by the bytes still queued are the old queue
    followed by newer runs, and a stall delivers nothing and keeps the old
    queue as a prefix; the consumer's ready enters neither the write
    enable, the commit, the discard, the handshakes nor the toggle; and
    okay_to_receive is targeting, matching PID and free capacity of at
    least max-packet-size, so no byte is strobed into the FIFO with less
    free capacity than that.  The write enable is exactly targeting,
    free capacity of at least max-packet-size, matching PID and a byte on
    the receive stream, so it is low whenever less is free; and through a
    stall of any length every byte offered for the endpoint with the
    expected PID is strobed and stored as a speculative entry as long as
    max-packet-size bytes stay free, while the committed queue is left as
    it was. *)
Theorem backpressure_safety c s i r tr :
  fifo_read_en i = stream_ready i
  /\ (exists newer,
        FIFO.committed (fifo (step c s i))
        = (if stream_ready i then tl (FIFO.committed (fifo s))
           else FIFO.committed (fifo s)) ++ newer)
  /\ (exists newer,
        delivered c s tr ++ FIFO.committed (fifo (run c s tr))
        = FIFO.committed (fifo s) ++ newer)
  /\ (Forall (fun j => stream_ready j = false) tr ->
      delivered c s tr = []
      /\ exists newer,
           FIFO.committed (fifo (run c s tr)) = FIFO.committed (fifo s) ++ newer)
  /\ (fifo_write_en c s (with_stream_ready r i) = fifo_write_en c s i
      /\ fifo_write_data (with_stream_ready r i) = fifo_write_data i
      /\ fifo_write_commit c (with_stream_ready r i) = fifo_write_commit c i
      /\ fifo_write_discard c (with_stream_ready r i) = fifo_write_discard c i
      /\ handshakes_out_ack c s (with_stream_ready r i) = handshakes_out_ack c s i
      /\ handshakes_out_nak c s (with_stream_ready r i) = handshakes_out_nak c s i
      /\ expected_data_toggle (step c s (with_stream_ready r i))
         = expected_data_toggle (step c s i))
  /\ okay_to_receive c s i
     = targeting_endpoint c i
       && (_max_packet_size c <=? FIFO.space_available (fifo s))
       && expected_pid_match s i
  /\ (fifo_write_en c s i = true ->
      _max_packet_size c <= FIFO.space_available (fifo s))
  /\ fifo_write_en c s i
     = targeting_endpoint c i
       && (_max_packet_size c <=? FIFO.space_available (fifo s))
       && expected_pid_match s i && rx_next i && rx_valid i
  /\ (FIFO.space_available (fifo s) < _max_packet_size c ->
      fifo_write_en c s i = false)
  /\ (1 <= _max_packet_size c ->
      Forall (fun j => stream_ready j = false
                       /\ receiving c (expected_data_toggle s) j = true) tr ->
      _max_packet_size c + Z.of_nat (length tr) - 1
      <= FIFO.space_available (fifo s) ->
      written c s tr = map fifo_write_data tr
      /\ FIFO.pending (fifo (run c s tr))
         = FIFO.pending (fifo s) ++ map fifo_write_data tr
      /\ FIFO.committed (fifo (run c s tr)) = FIFO.committed (fifo s)
      /\ delivered c s tr = []).
Proof.
  split; [reflexivity |].
  split; [rewrite committed_step; unfold fifo_read_en; eauto |].
  split; [apply delivered_in_order |].
  split.
  { intros Hstall. pose proof (stall_delivers_nothing c s tr Hstall) as Hd.
    split; [exact Hd |].
    destruct (delivered_in_order c s tr) as [newer Hn].
    rewrite Hd in Hn. eauto. }
  split; [repeat split |].
  split; [unfold okay_to_receive, sufficient_space; now rewrite Z.geb_leb |].
  split.
  { unfold fifo_write_en, okay_to_receive, sufficient_space.
    rewrite Z.geb_leb.
    destruct (targeting_endpoint c i); cbn; try discriminate.
    destruct (_max_packet_size c <=? FIFO.space_available (fifo s)) eqn:Hsp;
      cbn; try discriminate.
    intros _. now apply Z.leb_le. }
  split.
  { unfold fifo_write_en, okay_to_receive, sufficient_space.
    now rewrite Z.geb_leb. }
  split.
  { intros Hlow. unfold fifo_write_en, okay_to_receive, sufficient_space.
    replace (FIFO.space_available (fifo s) >=? _max_packet_size c) with false
      by (symmetry; rewrite Z.geb_leb; apply Z.leb_gt; lia).
    now rewrite andb_false_r. }
  intros Hmps Hall Hsp.
  assert (Hstall : Forall (fun j => stream_ready j = false) tr)
    by (eapply Forall_impl; [| exact Hall]; cbn; tauto).
  assert (Hrx : Forall (fun j => receiving c (expected_data_toggle s) j = true) tr)
    by (eapply Forall_impl; [| exact Hall]; cbn; tauto).
  destruct (receiving_run c (expected_data_toggle s) tr s Hmps Hrx eq_refl Hsp)
    as (Hw & Hc & _ & Hp & _).
  pose proof (stall_delivers_nothing c s tr Hstall) as Hd.
  pose proof (delivered_without_commit c s tr Hc) as Hq.
  rewrite Hd in Hq. auto.
Qed.

Lemma backpressure_safety_witness :
  let c := mk_config 1 8 24 in
  let s := run c (reset c) (good_packet false false payload8) in
  let tr := data_bytes true true false payload8 in
  FIFO.space_available (fifo s) = 16
  /\ written c s tr = map fifo_write_data tr
  /\ FIFO.committed (fifo (run c s tr)) = FIFO.committed (fifo s)
  /\ delivered c s tr = [].
Proof.
  cbv zeta. split; [vm_compute; reflexivity |].
  destruct (backpressure_safety (mk_config 1 8 24)
              (run (mk_config 1 8 24) (reset (mk_config 1 8 24))
                   (good_packet false false payload8))
              (response_slot false false) false
              (data_bytes true true false payload8))
    as (_ & _ & _ & _ & _ & _ & _ & _ & _ & Hstall).
  destruct Hstall as (Hw & _ & Hc & Hd).
  - vm_compute; discriminate.
  - repeat (constructor; [split; vm_compute; reflexivity |]). constructor.
  - vm_compute; discriminate.
  - auto.
Defined.

(** ** Construction *)

(** C8, as stated, fails: a buffer of 4 bytes with a max-packet-size of 8
    is accepted by the constructor and stored as it is. *)
Lemma init_accepts_small_buffer :
  __init__ 1 8 (Some 4) = Some (mk_config 1 8 4)
  /\ _buffer_size (mk_config 1 8 4) < _max_packet_size (mk_config 1 8 4).
Proof. split; reflexivity. Qed.

Lemma undersized_never_sufficient c tr :
  _buffer_size c < _max_packet_size c ->
  sufficient_space c (run c (reset c) tr) = false.
Proof.
  intros Hlt. unfold sufficient_space. rewrite Z.geb_leb. apply Z.leb_gt.
  pose proof (space_le_depth (fifo (run c (reset c) tr))) as Hle.
  rewrite fifo_depth_run in Hle. cbn in Hle. lia.
Qed.

(** C8, amended: the constructor rejects no buffer size; it stores the
    given size as it is, also one smaller than max-packet-size, and takes
    twice the max-packet-size when none is given.  An undersized buffer
    shows only at run time: the endpoint then never sees sufficient space,
    never strobes a byte into the FIFO and never flips its toggle. *)
Theorem init_never_rejects endpoint_number max_packet_size :
  (forall buffer_size,
      __init__ endpoint_number max_packet_size (Some buffer_size)
      = Some (mk_config endpoint_number max_packet_size buffer_size))
  /\ __init__ endpoint_number max_packet_size None
     = Some (mk_config endpoint_number max_packet_size (max_packet_size * 2))
  /\ (forall c tr i,
         _buffer_size c < _max_packet_size c ->
         okay_to_receive c (run c (reset c) tr) i = false
         /\ fifo_write_en c (run c (reset c) tr) i = false
         /\ expected_data_toggle (run c (reset c) tr) = false
         /\ sufficient_space c (run c (reset c) tr) = false).
Proof.
  split; [reflexivity | split; [reflexivity |]].
  intros c tr i Hlt.
  assert (Hok : forall tr' j, okay_to_receive c (run c (reset c) tr') j = false).
  { intros tr' j. unfold okay_to_receive.
    rewrite (undersized_never_sufficient c tr' Hlt).
    now rewrite andb_false_r. }
  split; [apply Hok |].
  split; [unfold fifo_write_en; now rewrite Hok |].
  split; [| now apply undersized_never_sufficient].
  clear i. induction tr as [|i tr IH] using rev_ind; [reflexivity |].
  rewrite run_app. cbn [run]. rewrite toggle_step, Hok, andb_false_r, IH.
  reflexivity.
Qed.

End OutEndpointClaims.

(** * What the byte-stream IN endpoint guarantees *)

Module InEndpointClaims.

Import USBInTransferManager USBStreamInEndpoint.

(** The packets cut from a last-marked transfer that continues a partly
    filled packet: full packets, then either a zero-length packet or a
    short one, according to the total length. *)
Lemma packets_shape mps (Hmps : 0 < mps) data : forall buf,
  data <> [] ->
  Z.of_nat (length buf) < mps ->
  let total := Z.of_nat (length buf) + Z.of_nat (length data) in
  concat (packets mps true buf (transfer data)) = buf ++ data
  /\ exists full,
      Forall (fun p => Z.of_nat (length p) = mps) full
      /\ ((total mod mps = 0
           /\ packets mps true buf (transfer data) = full ++ [[]])
          \/ (total mod mps <> 0
              /\ exists short,
                  packets mps true buf (transfer data) = full ++ [short]
                  /\ 0 < Z.of_nat (length short) < mps)).
Proof.
  induction data as [|b data IH]; intros buf Hne Hbuf; [congruence |].
  assert (Hlen : Z.of_nat (length (buf ++ [b])) = Z.of_nat (length buf) + 1)
    by (rewrite length_app; cbn; lia).
  destruct data as [|d rest].
  - (* the byte marked last *)
    cbn [transfer packets length]. cbv zeta.
    destruct (Z.of_nat (length (buf ++ [b])) >=? mps) eqn:Hfull;
      rewrite Z.geb_leb in Hfull.
    + apply Z.leb_le in Hfull. cbn [andb app concat].
      split; [now rewrite !app_nil_r |].
      exists [buf ++ [b]]. split; [constructor; [lia | constructor] |].
      left. split; [| reflexivity].
      replace (Z.of_nat (length buf) + Z.of_nat 1) with mps by lia.
      apply Z.mod_same; lia.
    + apply Z.leb_gt in Hfull. cbn [concat].
      split; [now rewrite !app_nil_r |].
      exists []. split; [constructor |].
      right. split.
      * rewrite Z.mod_small; lia.
      * exists (buf ++ [b]). split; [reflexivity | lia].
  - (* an interior byte *)
    assert (Hne' : d :: rest <> []) by congruence.
    change (transfer (b :: d :: rest)) with ((b, false) :: transfer (d :: rest)).
    cbn [packets]. cbv zeta.
    destruct (Z.of_nat (length (buf ++ [b])) >=? mps) eqn:Hfull;
      rewrite Z.geb_leb in Hfull.
    + apply Z.leb_le in Hfull. cbn [andb app].
      destruct (IH [] Hne') as (Hcat & full & Hall & Hshape); [cbn; lia |].
      cbn [concat]. rewrite Hcat. cbn [app].
      split; [now rewrite <- app_assoc |].
      exists ((buf ++ [b]) :: full). split; [constructor; [lia | exact Hall] |].
      assert (Hmod : (Z.of_nat (length buf) + Z.of_nat (length (b :: d :: rest)))
                       mod mps
                     = (Z.of_nat (length (@nil Z)) + Z.of_nat (length (d :: rest)))
                         mod mps).
      { replace (Z.of_nat (length buf) + Z.of_nat (length (b :: d :: rest)))
          with (Z.of_nat (length (d :: rest)) + 1 * mps)
          by (cbn [length] in *; lia).
        rewrite Z.mod_add by lia. reflexivity. }
      rewrite Hmod.
      destruct Hshape as [(H0 & ->) | (H0 & short & -> & Hs)].
      * left. split; [exact H0 | reflexivity].
      * right. split; [exact H0 |]. exists short. split; [reflexivity | exact Hs].
    + apply Z.leb_gt in Hfull.
      destruct (IH (buf ++ [b]) Hne') as (Hcat & full & Hall & Hshape); [lia |].
      rewrite Hcat. split; [now rewrite <- app_assoc |].
      exists full. split; [exact Hall |].
      replace (Z.of_nat (length buf) + Z.of_nat (length (b :: d :: rest)))
        with (Z.of_nat (length (buf ++ [b])) + Z.of_nat (length (d :: rest)))
        by (cbn [length] in *; lia).
      exact Hshape.
Qed.

(** C7: the byte-stream IN endpoint ties generate_zlps of its transfer
    manager to 1; the packets sent for a transfer carry its bytes in
    order; a transfer whose length is a multiple of max-packet-size goes
    out as full packets followed by exactly one zero-length packet, and
    any other transfer ends with a packet shorter than max-packet-size and
    no zero-length packet. *)
Theorem zlp_after_full_final_packet c data :
  0 < _max_packet_size c ->
  data <> [] ->
  tx_manager_generate_zlps = true
  /\ concat (interface_tx c (transfer data)) = data
  /\ (Z.of_nat (length data) mod _max_packet_size c = 0 ->
      exists full,
        interface_tx c (transfer data) = full ++ [[]]
        /\ Forall (fun p => Z.of_nat (length p) = _max_packet_size c) full)
  /\ (Z.of_nat (length data) mod _max_packet_size c <> 0 ->
      exists full short,
        interface_tx c (transfer data) = full ++ [short]
        /\ Forall (fun p => Z.of_nat (length p) = _max_packet_size c) full
        /\ 0 < Z.of_nat (length short) < _max_packet_size c).
Proof.
  intros Hmps Hne.
  destruct (packets_shape (_max_packet_size c) Hmps data [] Hne)
    as (Hcat & full & Hall & Hshape); [cbn; lia |].
  cbn [length app] in *. rewrite Z.add_0_l in Hshape.
  unfold interface_tx, tx_manager_generate_zlps.
  split; [reflexivity | split; [exact Hcat |]].
  destruct Hshape as [(H0 & Hp) | (H0 & short & Hp & Hs)]; split; intros Hm;
    try congruence; rewrite Hp; eauto.
Qed.

Lemma zlp_after_full_final_packet_witness :
  interface_tx (mk_config 1 4) (transfer [1; 2; 3; 4; 5; 6; 7; 8])
  = [[1; 2; 3; 4]; [5; 6; 7; 8]; []]
  /\ tx_manager_generate_zlps = true
  /\ concat (interface_tx (mk_config 1 4) (transfer [1; 2; 3; 4; 5; 6; 7; 8]))
     = [1; 2; 3; 4; 5; 6; 7; 8].
Proof.
  split; [reflexivity |].
  destruct (zlp_after_full_final_packet (mk_config 1 4) [1; 2; 3; 4; 5; 6; 7; 8])
    as (Hz & Hcat & _).
  - reflexivity.
  - discriminate.
  - split; assumption.
Defined.

End InEndpointClaims.

(** * What the word adapter guarantees *)

Module WordAdapterClaims.

Import Bits USBMultibyteStreamInEndpoint WordAdapter.

(** ** Arithmetic of the shift register *)

Lemma slice_low_byte d : slice 0 8 d = le_byte d 0.
Proof.
  unfold slice, le_byte. rewrite Z.shiftr_0_r. cbn [Z.of_nat].
  change (2 ^ (8 - 0)) with 256. change (256 ^ 0) with 1.
  now rewrite Z.div_1_r.
Qed.

Lemma slice_shift width d b :
  0 < b <= width - 1 ->
  0 <= d < 256 ^ (b + 1) ->
  slice 8 (width * 8) d = d / 256 /\ 0 <= d / 256 < 256 ^ b.
Proof.
  intros Hb Hd.
  assert (Hq : 0 <= d / 256 < 256 ^ b).
  { split; [apply Z.div_pos; lia |].
    apply Z.div_lt_upper_bound; [lia |].
    replace (256 * 256 ^ b) with (256 ^ (b + 1)); [lia |].
    rewrite Z.pow_add_r by lia. lia. }
  split; [| exact Hq].
  unfold slice. rewrite Z.shiftr_div_pow2 by lia. change (2 ^ 8) with 256.
  apply Z.mod_small. split; [lia |].
  apply Z.lt_le_trans with (256 ^ b); [lia |].
  replace (width * 8 - 8) with (8 * (width - 1)) by lia.
  rewrite Z.pow_mul_r by lia. change (2 ^ 8) with 256.
  apply Z.pow_le_mono_r; lia.
Qed.

Lemma le_byte_shift d k : 0 <= d -> le_byte (d / 256) k = le_byte d (S k).
Proof.
  intros Hd. unfold le_byte.
  rewrite Z.div_div by (try apply Z.pow_pos_nonneg; lia).
  replace (256 * 256 ^ Z.of_nat k) with (256 ^ Z.of_nat (S k)); [reflexivity |].
  rewrite Nat2Z.inj_succ, Z.pow_succ_r by lia. reflexivity.
Qed.

Lemma counter_fits width :
  1 <= width -> truncate (bits_for width) (width - 1) = width - 1.
Proof.
  intros Hw. unfold truncate, bits_for.
  destruct (width <=? 0) eqn:H0; [apply Z.leb_le in H0; lia |].
  apply Z.mod_small. split; [lia |].
  pose proof (Z.log2_spec width ltac:(lia)) as [_ Hup].
  unfold Z.succ in Hup. lia.
Qed.

Lemma payload_fits width p :
  1 <= width -> 0 <= p < 256 ^ width -> truncate (width * 8) p = p.
Proof.
  intros Hw Hp. unfold truncate. apply Z.mod_small.
  replace (width * 8) with (8 * width) by lia.
  rewrite Z.pow_mul_r by lia. exact Hp.
Qed.

(** ** The shift register against the little-endian bytes *)

Lemma shift_tokens_bytes width fl ll n : forall d,
  Z.of_nat n <= width - 1 ->
  0 <= d < 256 ^ (Z.of_nat n + 1) ->
  shift_tokens width fl ll d n
  = map (fun k => mk_byte (le_byte d k)
                          (fl && (Z.of_nat (n - k) =? width - 1))
                          (ll && (Z.of_nat (n - k) =? 0)))
        (seq 0 (S n)).
Proof.
  induction n as [|n IH]; intros d Hn Hd.
  - cbn. now rewrite slice_low_byte.
  - cbn [shift_tokens]. rewrite <- cons_seq. cbn [map].
    rewrite slice_low_byte, Nat.sub_0_r. f_equal.
    destruct (slice_shift width d (Z.of_nat (S n))) as [Hs Hq]; [lia | lia |].
    rewrite Hs, IH by lia.
    rewrite <- seq_shift, map_map.
    apply map_ext. intros k. rewrite le_byte_shift by lia.
    reflexivity.
Qed.

Lemma word_in_shift_register width w :
  1 <= width ->
  0 <= w_payload w < 256 ^ width ->
  shift_tokens width (w_first w) (w_last w) (w_payload w)
               (Z.to_nat (width - 1))
  = word_tokens (Z.to_nat width) w.
Proof.
  intros Hw Hp.
  assert (Hn : Z.of_nat (Z.to_nat (width - 1)) = width - 1)
    by (apply Z2Nat.id; lia).
  rewrite shift_tokens_bytes;
    [| lia | rewrite Hn; replace (width - 1 + 1) with width by lia; exact Hp].
  unfold word_tokens.
  replace (S (Z.to_nat (width - 1))) with (Z.to_nat width) by lia.
  apply map_ext_in. intros k Hk. apply in_seq in Hk.
  f_equal; f_equal.
  - destruct (Nat.eqb_spec k 0) as [-> | Hk0].
    + rewrite Nat.sub_0_r, Z2Nat.id by lia. apply Z.eqb_refl.
    + apply Z.eqb_neq. lia.
  - destruct (Nat.eqb_spec (S k) (Z.to_nat width)) as [He | Hne].
    + apply Z.eqb_eq. lia.
    + apply Z.eqb_neq. lia.
Qed.

(** ** The adapter against a patient producer *)

Section Adapter.

Variable c : config.
Hypothesis Hwidth : 1 <= _byte_width c.

Lemma feed_idle readys : forall s,
  fsm s = IDLE -> feed c s [] readys = [].
Proof.
  induction readys as [|r readys IH]; intros s Hs; [reflexivity |].
  cbn [feed hd]. unfold byte_transfer, byte_stream_valid, step.
  rewrite Hs. cbn. now apply IH.
Qed.

Lemma load_transmitting i :
  fits c (word_stream_data i) ->
  transmitting c (load c i TRANSMIT)
  /\ in_flight c (load c i TRANSMIT)
     = word_tokens (Z.to_nat (_byte_width c)) (word_stream_data i).
Proof.
  intros Hp. unfold fits in Hp.
  unfold transmitting, in_flight, load; cbn [fsm bytes_to_send data_shift
                                               first_latched last_latched].
  rewrite counter_fits, payload_fits by assumption.
  replace (_byte_width c - 1 + 1) with (_byte_width c) by lia.
  repeat split; try lia.
  now apply word_in_shift_register.
Qed.

Lemma in_flight_head s :
  transmitting c s ->
  in_flight c s
  = mk_byte (byte_stream_payload s)
            (first_latched s && is_first_byte c s)
            (last_latched s && is_last_byte s)
    :: (if bytes_to_send s >? 0
        then shift_tokens (_byte_width c) (first_latched s) (last_latched s)
                          (slice 8 (_byte_width c * 8) (data_shift s))
                          (Z.to_nat (bytes_to_send s - 1))
        else []).
Proof.
  intros (Hf & Hb & Hd). unfold in_flight. rewrite Hf.
  unfold byte_stream_payload, is_first_byte, is_last_byte.
  destruct (bytes_to_send s >? 0) eqn:Hpos.
  - apply Z.gtb_lt in Hpos.
    replace (Z.to_nat (bytes_to_send s)) with (S (Z.to_nat (bytes_to_send s - 1)))
      by lia.
    cbn [shift_tokens].
    replace (Z.of_nat (S (Z.to_nat (bytes_to_send s - 1)))) with (bytes_to_send s)
      by lia.
    reflexivity.
  - rewrite Z.gtb_ltb in Hpos. apply Z.ltb_ge in Hpos.
    replace (bytes_to_send s) with 0 by lia. reflexivity.
Qed.

Lemma feed_transmitting readys : forall s ws,
  transmitting c s ->
  Forall (fits c) ws ->
  feed c s ws readys
  = firstn (ready_cycles readys)
           (in_flight c s ++ flat_map (word_tokens (Z.to_nat (_byte_width c))) ws).
Proof.
  induction readys as [|r readys IH]; intros s ws Hs Hws; [reflexivity |].
  pose proof Hs as (Hf & Hb & Hd).
  cbn [feed]. unfold byte_transfer, byte_stream_valid, word_stream_ready.
  unfold byte_stream_first, byte_stream_last, step.
  rewrite Hf. cbn [byte_stream_ready word_stream_valid word_stream_data andb].
  destruct r.
  - (* the inner endpoint takes a byte *)
    unfold ready_cycles. cbn [count_occ]. destruct (bool_dec true true); [| congruence].
    fold (ready_cycles readys).
    rewrite (in_flight_head s Hs). cbn [app firstn andb]. f_equal.
    destruct (bytes_to_send s >? 0) eqn:Hpos.
    + apply Z.gtb_lt in Hpos. cbn [negb]. rewrite andb_false_r.
      destruct (slice_shift (_byte_width c) (data_shift s) (bytes_to_send s))
        as [Hsl Hq]; [lia | lia |].
      rewrite IH; [| | exact Hws].
      * unfold in_flight; cbn [fsm first_latched last_latched data_shift
                                 bytes_to_send]. reflexivity.
      * unfold transmitting; cbn [fsm bytes_to_send data_shift].
        rewrite Hsl. replace (bytes_to_send s - 1 + 1) with (bytes_to_send s) by lia.
        repeat split; lia.
    + cbn [negb app]. rewrite andb_true_r.
      destruct ws as [|w ws]; cbn [hd tl flat_map].
      * rewrite feed_idle by reflexivity. now destruct (ready_cycles readys).
      * inversion Hws as [|? ? Hw Hrest]; subst.
        set (i := mk_inputs true w true).
        destruct (load_transmitting i Hw) as [Ht Hin].
        rewrite IH by assumption. now rewrite Hin.
  - (* the inner endpoint stalls *)
    unfold ready_cycles. cbn [count_occ]. destruct (bool_dec false true); [congruence |].
    fold (ready_cycles readys).
    rewrite andb_false_r. cbn [app]. now apply IH.
Qed.

Lemma feed_from_reset ws readys :
  Forall (fits c) ws ->
  feed c reset ws readys
  = firstn (ready_cycles (tl readys))
           (flat_map (word_tokens (Z.to_nat (_byte_width c))) ws).
Proof.
  intros Hws. destruct readys as [|r readys]; [reflexivity |].
  destruct ws as [|w ws].
  - rewrite feed_idle by reflexivity. now rewrite firstn_nil.
  - inversion Hws as [|? ? Hw Hrest]; subst.
    cbn [feed tl hd]. unfold byte_transfer, step, word_stream_ready.
    cbn [byte_stream_valid fsm reset word_stream_valid andb app].
    set (i := mk_inputs true w r).
    destruct (load_transmitting i Hw) as [Ht Hin].
    rewrite feed_transmitting by assumption. now rewrite Hin.
Qed.

(** Whatever the producer and the inner endpoint do, the bytes handed over
    so far and the bytes still in the shift register are the bytes of the
    words taken so far. *)
Lemma bytes_follow_words tr : forall s,
  fsm s = IDLE \/ transmitting c s ->
  Forall (fun i => fits c (word_stream_data i)) tr ->
  emitted c s tr ++ in_flight c (run c s tr)
  = in_flight c s
      ++ flat_map (word_tokens (Z.to_nat (_byte_width c))) (accepted c s tr).
Proof.
  induction tr as [|i tr IH]; intros s Hs Htr.
  - cbn. now rewrite app_nil_r.
  - inversion Htr as [|? ? Hi Hrest]; subst.
    destruct (load_transmitting i Hi) as [Hload Hin].
    cbn [emitted accepted run].
    destruct Hs as [Hidle | Hs].
    + unfold byte_transfer, word_transfer, byte_stream_valid,
        word_stream_ready, step, in_flight at 2.
      rewrite Hidle. cbn [andb app]. rewrite andb_true_r.
      destruct (word_stream_valid i); cbn [app flat_map].
      * rewrite IH by auto. now rewrite Hin.
      * rewrite IH by auto. unfold in_flight at 1. now rewrite Hidle.
    + pose proof Hs as (Hf & Hb & Hd).
      rewrite (in_flight_head s Hs).
      unfold byte_transfer, word_transfer, byte_stream_valid,
        word_stream_ready, byte_stream_first, byte_stream_last, step.
      rewrite Hf. cbn [andb].
      destruct (byte_stream_ready i); cbn [andb app].
      * destruct (bytes_to_send s >? 0) eqn:Hpos; cbn [negb].
        -- apply Z.gtb_lt in Hpos. rewrite andb_false_r. cbn [app].
           destruct (slice_shift (_byte_width c) (data_shift s) (bytes_to_send s))
             as [Hsl Hq]; [lia | lia |].
           rewrite IH; [| right | exact Hrest].
           ++ unfold in_flight at 1; cbn [fsm first_latched last_latched
                                            data_shift bytes_to_send].
              reflexivity.
           ++ unfold transmitting; cbn [fsm bytes_to_send data_shift].
              rewrite Hsl.
              replace (bytes_to_send s - 1 + 1) with (bytes_to_send s) by lia.
              repeat split; lia.
        -- rewrite andb_true_r.
           destruct (word_stream_valid i); cbn [app flat_map].
           ++ rewrite IH by auto. now rewrite Hin.
           ++ rewrite IH by (auto; left; reflexivity).
              unfold in_flight at 1; cbn [fsm]. reflexivity.
      * rewrite andb_false_r. cbn [app]. rewrite IH by auto.
        now rewrite (in_flight_head s Hs).
Qed.

End Adapter.

(** ** Marked words against the tagged byte sequence *)

Lemma tag_last_cons b b' rest :
  tag_last (b :: b' :: rest) = mk_byte b false false :: tag_last (b' :: rest).
Proof. reflexivity. Qed.

Lemma tag_last_seq (f : nat -> Z) n : forall a,
  tag_last (map f (seq a n))
  = map (fun k => mk_byte (f k) false (S k =? a + n)%nat) (seq a n).
Proof.
  induction n as [|n IH]; intros a; [reflexivity |].
  destruct n as [|n].
  - cbn. replace (a + 1)%nat with (S a) by lia. now rewrite Nat.eqb_refl.
  - specialize (IH (S a)). cbn [seq map] in IH |- *.
    rewrite tag_last_cons, IH.
    replace (S a + S n)%nat with (a + S (S n))%nat by lia.
    f_equal. f_equal. symmetry. apply Nat.eqb_neq. lia.
Qed.

Lemma word_tokens_plain n p :
  word_tokens n (mk_word p false false) = plain (le_bytes n p).
Proof. unfold word_tokens, plain, le_bytes. now rewrite map_map. Qed.

Lemma word_tokens_last n p :
  word_tokens n (mk_word p false true) = tag_last (le_bytes n p).
Proof. unfold word_tokens, le_bytes. now rewrite tag_last_seq. Qed.

Lemma word_tokens_first n p l :
  word_tokens n (mk_word p true l) = set_first (word_tokens n (mk_word p false l)).
Proof.
  unfold word_tokens. destruct n as [|n]; [reflexivity |].
  rewrite <- cons_seq. cbn [map set_first b_payload b_last andb w_first
                              w_payload w_last Nat.eqb].
  f_equal. rewrite <- seq_shift, !map_map. reflexivity.
Qed.

Lemma tag_last_app xs ys :
  ys <> [] -> tag_last (xs ++ ys) = plain xs ++ tag_last ys.
Proof.
  intros Hys. induction xs as [|x xs IH]; [reflexivity |].
  cbn [app plain map]. fold (plain xs). rewrite <- IH.
  destruct (xs ++ ys) eqn:Hcat; [| reflexivity].
  apply app_eq_nil in Hcat. tauto.
Qed.

Lemma set_first_app xs ys :
  xs <> [] -> set_first (xs ++ ys) = set_first xs ++ ys.
Proof. destruct xs; [congruence | reflexivity]. Qed.

Lemma le_bytes_length n p : length (le_bytes n p) = n.
Proof. unfold le_bytes. now rewrite length_map, length_seq. Qed.

Lemma all_bytes_length n ps :
  length (flat_map (le_bytes n) ps) = (length ps * n)%nat.
Proof.
  induction ps as [|p ps IH]; [reflexivity |].
  cbn [flat_map length]. rewrite length_app, le_bytes_length, IH. lia.
Qed.

Lemma tag_last_length bs : length (tag_last bs) = length bs.
Proof.
  induction bs as [|b bs IH]; [reflexivity |].
  destruct bs; [reflexivity |]. cbn [tag_last length] in *. now rewrite IH.
Qed.

Lemma tag_length bs : length (tag bs) = length bs.
Proof.
  unfold tag. rewrite <- (tag_last_length bs).
  now destruct (tag_last bs).
Qed.

Lemma marked_last_tokens n ps :
  (1 <= n)%nat ->
  flat_map (word_tokens n) (mark_last ps) = tag_last (flat_map (le_bytes n) ps).
Proof.
  intros Hn. induction ps as [|p ps IH]; [reflexivity |].
  destruct ps as [|q ps].
  - cbn [mark_last flat_map]. now rewrite !app_nil_r, word_tokens_last.
  - change (mark_last (p :: q :: ps))
      with (mk_word p false false :: mark_last (q :: ps)).
    cbn [flat_map] in *. rewrite IH, word_tokens_plain, (tag_last_app (le_bytes n p)).
    + reflexivity.
    + intros Hnil. apply (f_equal (@length Z)) in Hnil.
      rewrite length_app, le_bytes_length in Hnil. cbn in Hnil. lia.
Qed.

Lemma marked_tokens n ps :
  (1 <= n)%nat ->
  flat_map (word_tokens n) (mark ps) = tag (flat_map (le_bytes n) ps).
Proof.
  intros Hn. unfold tag. rewrite <- (marked_last_tokens n ps Hn).
  unfold mark. destruct (mark_last ps) as [|w ws]; [reflexivity |].
  cbn [flat_map].
  assert (Hne : word_tokens n w <> []).
  { unfold word_tokens. destruct n; [lia |]. now rewrite <- cons_seq. }
  destruct w as [p f l]. cbn [w_payload w_last].
  rewrite word_tokens_first.
  destruct f.
  - rewrite word_tokens_first in *.
    destruct (word_tokens n (mk_word p false l)) eqn:Hw; [| reflexivity].
    cbn in Hne. congruence.
  - destruct (word_tokens n (mk_word p false l)); [congruence | reflexivity].
Qed.

Lemma mark_last_payloads ps : map w_payload (mark_last ps) = ps.
Proof.
  induction ps as [|p ps IH]; [reflexivity |].
  destruct ps; [reflexivity |]. cbn [mark_last map w_payload] in *.
  now rewrite IH.
Qed.

Lemma mark_payloads ps : map w_payload (mark ps) = ps.
Proof.
  unfold mark. rewrite <- (mark_last_payloads ps) at 2.
  now destruct (mark_last ps).
Qed.

(** C5: a producer offers words of byte_width bytes, first marked on the
    first word only and last on the last word only, and holds each word
    until it is taken.  The bytes handed to the inner byte stream are then
    the little-endian bytes of the words in order, with first on the very
    first byte only and last on the very last byte only: one byte for
    every cycle after the first in which the inner stream is ready, and
    all of them once it has been ready often enough. *)
Theorem words_serialised_little_endian c ps readys :
  1 <= _byte_width c ->
  Forall (fun p => 0 <= p < 256 ^ _byte_width c) ps ->
  feed c reset (mark ps) readys
  = firstn (ready_cycles (tl readys))
           (tag (flat_map (le_bytes (Z.to_nat (_byte_width c))) ps))
  /\ ((length ps * Z.to_nat (_byte_width c) <= ready_cycles (tl readys))%nat ->
      feed c reset (mark ps) readys
      = tag (flat_map (le_bytes (Z.to_nat (_byte_width c))) ps)).
Proof.
  intros Hw Hps.
  assert (Hfeed : feed c reset (mark ps) readys
                  = firstn (ready_cycles (tl readys))
                      (tag (flat_map (le_bytes (Z.to_nat (_byte_width c))) ps))).
  { rewrite feed_from_reset; [| exact Hw |].
    - rewrite marked_tokens by lia. reflexivity.
    - rewrite <- (mark_payloads ps) in Hps.
      unfold fits. now apply Forall_map in Hps. }
  split; [exact Hfeed |].
  intros Hall. rewrite Hfeed. apply firstn_all2.
  now rewrite tag_length, all_bytes_length.
Qed.

Lemma words_serialised_little_endian_witness :
  feed ep4 reset (mark two_words) (repeat true 9)
  = tag [1; 2; 3; 4; 5; 6; 7; 8]
  /\ tag [1; 2; 3; 4; 5; 6; 7; 8]
     = [mk_byte 1 true false; mk_byte 2 false false; mk_byte 3 false false;
        mk_byte 4 false false; mk_byte 5 false false; mk_byte 6 false false;
        mk_byte 7 false false; mk_byte 8 false true].
Proof.
  split; [| reflexivity].
  destruct (words_serialised_little_endian ep4 two_words (repeat true 9))
    as [_ Hall].
  - cbn. lia.
  - repeat constructor; cbn; lia.
  - apply Hall. cbn. lia.
Defined.

End WordAdapterClaims.

(** * Worked bus traffic *)

Module Scenarios.

Import USBStreamOutEndpoint ResponseRules Traffic OutEndpointFacts.

(** Section 8 of the specification: max-packet-size 8, buffer 16, an
    8-byte DATA0 packet with a valid CRC while DATA0 is expected.  The
    endpoint ACKs in the response slot, holds the 8 bytes with first on
    byte 0 and last on byte 7, and expects DATA1 next. *)
Example accepted_packet :
  let tr := good_packet false false payload8 in
  map out_ack (trace ep1 (reset ep1) tr)
  = [false; false; false; false; false; false; false; false; false; true]
  /\ map out_nak (trace ep1 (reset ep1) tr) = repeat false 10
  /\ FIFO.committed (fifo (run ep1 (reset ep1) tr))
     = [529; 34; 51; 68; 85; 102; 119; 392]
  /\ expected_data_toggle (run ep1 (reset ep1) tr) = true.
Proof. repeat split; reflexivity. Qed.

(** A corrupted packet followed by a good one, with a consumer that is
    always ready: only the good packet reaches the stream. *)
Example corrupted_then_good :
  delivered ep1 (reset ep1)
            (bad_packet false true [1; 2; 3]
               ++ good_packet false true payload8 ++ repeat drain 8)
  = [529; 34; 51; 68; 85; 102; 119; 392].
Proof. reflexivity. Qed.

(** A second packet arriving while the consumer stalls on the first: the
    free space is exactly one max-packet-size when the packet starts and
    drops below it with the first byte, so only that byte is strobed into
    the FIFO and the response is NAK. *)
Example second_packet_under_stall :
  let s := run ep1 (reset ep1) (good_packet false false payload8) in
  FIFO.space_available (fifo s) = 8
  /\ written ep1 s (good_packet true false payload8) = [529]
  /\ map out_nak (trace ep1 s (good_packet true false payload8))
     = [false; false; false; false; false; false; false; false; false; true].
Proof. repeat split; reflexivity. Qed.

(** Without the exclusion of C9 both handshakes can be driven at once. *)
Example ack_and_nak_on_double_flag :
  handshakes_out_ack ep1 (reset ep1) both_flags_data = true
  /\ handshakes_out_nak ep1 (reset ep1) both_flags_data = true.
Proof. split; reflexivity. Qed.

(** A PING token that is not flagged OUT never targets the endpoint, so a
    requested PING response is always NAK, whatever the free space. *)
Lemma ping_alone_is_nakked c s i :
  tokenizer_is_out i && tokenizer_is_ping i = false ->
  ping_response_requested c i = true ->
  handshakes_out_ack c s i = false /\ handshakes_out_nak c s i = true.
Proof.
  intros Hx Hp. destruct (exclusive_ping c s i Hx Hp) as (Ho & Hs & Hd).
  unfold handshakes_out_ack, handshakes_out_nak.
  rewrite Ho, Hs, Hd, Hp. split; reflexivity.
Qed.

Example ping_on_empty_buffer :
  handshakes_out_ack ep1 (reset ep1) ping_token = false
  /\ handshakes_out_nak ep1 (reset ep1) ping_token = true.
Proof. split; reflexivity. Qed.

(** Eight bytes through an IN endpoint with max-packet-size 4: the
    zero-length packet is there because [generate_zlps] is tied high. *)
Example zlp_needs_generate_zlps :
  USBStreamInEndpoint.interface_tx (USBStreamInEndpoint.mk_config 1 4)
    (USBStreamInEndpoint.transfer [1; 2; 3; 4; 5; 6; 7; 8])
  = [[1; 2; 3; 4]; [5; 6; 7; 8]; []]
  /\ USBInTransferManager.packets 4 false []
       (USBStreamInEndpoint.transfer [1; 2; 3; 4; 5; 6; 7; 8])
     = [[1; 2; 3; 4]; [5; 6; 7; 8]]
  /\ USBStreamInEndpoint.interface_tx (USBStreamInEndpoint.mk_config 1 4)
       (USBStreamInEndpoint.transfer [1; 2; 3; 4; 5])
     = [[1; 2; 3; 4]; [5]].
Proof. repeat split; reflexivity. Qed.

End Scenarios.

(** * Further properties of the OUT endpoint *)

Module OutEndpointExtras.

Import Bits USBStreamOutEndpoint ResponseRules Bus Traffic OutEndpointFacts.
Import OutEndpointClaims.

(** ** The FIFO entry format *)

(** The ten-bit entry built from the receive stream (payload in bits 0..7,
    last in bit 8, first in bit 9) fits the FIFO's width, and once it is
    the head of the queue the consumer stream shows the same payload byte
    and the same first and last. *)
Theorem entry_round_trip i is_first toggle depth rest pending :
  let s := mk_state is_first toggle
                    (FIFO.mk depth (fifo_write_data i :: rest) pending) in
  0 <= fifo_write_data i < 2 ^ 10
  /\ stream_valid s = true
  /\ stream_payload s = rx_payload i mod 256
  /\ stream_last s = rx_last i
  /\ stream_first s = rx_first i.
Proof.
  cbv zeta. unfold stream_valid, stream_payload, stream_last, stream_first.
  cbn [fifo FIFO.empty FIFO.read_data FIFO.committed hd negb].
  split.
  { unfold fifo_write_data, truncate, b2z.
    assert (0 <= rx_payload i mod 2 ^ 8 < 256) by (apply Z.mod_pos_bound; lia).
    change (2 ^ 10) with 1024.
    destruct (rx_last i), (rx_first i); lia. }
  split; [reflexivity |].
  split; [apply write_data_payload |].
  split; [apply write_data_last | apply write_data_first].
Qed.

(** ** Handshakes *)

(** With a token that is not flagged OUT and PING at once, exactly one of
    ACK and NAK is driven in the cycles in which a DATA or a PING response
    is requested, and neither in any other cycle. *)
Theorem one_handshake_per_request c s i :
  tokenizer_is_out i && tokenizer_is_ping i = false ->
  xorb (handshakes_out_ack c s i) (handshakes_out_nak c s i)
  = data_response_requested c i || ping_response_requested c i
  /\ handshakes_out_ack c s i || handshakes_out_nak c s i
     = data_response_requested c i || ping_response_requested c i.
Proof.
  intros Hx.
  destruct (ping_response_requested c i) eqn:Hp.
  - destruct (exclusive_ping c s i Hx Hp) as (Ho & Hs & Hd).
    unfold handshakes_out_ack, handshakes_out_nak.
    rewrite Ho, Hs, Hd, Hp. split; reflexivity.
  - unfold handshakes_out_ack, handshakes_out_nak. rewrite Hp.
    pose proof (skip_excludes_receive c s i) as Hse.
    destruct (data_response_requested c i), (okay_to_receive c s i),
      (should_skip c s i); cbn in *; try discriminate; split; reflexivity.
Qed.

Lemma one_handshake_per_request_witness :
  xorb (handshakes_out_ack ep1 (reset ep1) (response_slot true false))
       (handshakes_out_nak ep1 (reset ep1) (response_slot true false))
  = true.
Proof.
  destruct (one_handshake_per_request ep1 (reset ep1) (response_slot true false))
    as [Hxor _]; [reflexivity |].
  rewrite Hxor. reflexivity.
Defined.

(** A requested PING response on a token that is not also flagged OUT is
    always answered with NAK and never with ACK, whatever the free space
    and the expected toggle: targeting_endpoint requires an OUT token. *)
Theorem ping_is_never_acked c s i :
  tokenizer_is_out i && tokenizer_is_ping i = false ->
  ping_response_requested c i = true ->
  handshakes_out_ack c s i = false
  /\ handshakes_out_nak c s i = true
  /\ expected_data_toggle (step c s i) = expected_data_toggle s.
Proof.
  intros Hx Hp. destruct (exclusive_ping c s i Hx Hp) as (Ho & Hs & Hd).
  unfold handshakes_out_ack, handshakes_out_nak.
  rewrite toggle_step, Ho, Hs, Hd, Hp. cbn. rewrite xorb_false_r. auto.
Qed.

Lemma ping_is_never_acked_witness :
  FIFO.space_available (fifo (reset ep1)) = 16
  /\ handshakes_out_ack ep1 (reset ep1) ping_token = false
  /\ handshakes_out_nak ep1 (reset ep1) ping_token = true.
Proof.
  split; [reflexivity |].
  destruct (ping_is_never_acked ep1 (reset ep1) ping_token) as (Ha & Hn & _);
    [reflexivity | reflexivity |].
  split; assumption.
Defined.

(** The expected data toggle changes only in a cycle in which ACK is
    driven and NAK is not, for a packet that carries the expected DATA PID
    while at least max-packet-size bytes are free. *)
Theorem toggle_changes_only_with_ack c s i :
  expected_data_toggle (step c s i) <> expected_data_toggle s ->
  handshakes_out_ack c s i = true
  /\ handshakes_out_nak c s i = false
  /\ rx_pid_toggle i = expected_data_toggle s
  /\ _max_packet_size c <= FIFO.space_available (fifo s).
Proof.
  rewrite toggle_step. intros Hflip.
  destruct (data_response_requested c i) eqn:Hd;
    [| cbn in Hflip; rewrite xorb_false_r in Hflip; congruence].
  destruct (okay_to_receive c s i) eqn:Ho;
    [| cbn in Hflip; rewrite xorb_false_r in Hflip; congruence].
  pose proof (nak_excludes_receive c s i) as Hn. rewrite Ho, andb_true_r in Hn.
  split; [unfold handshakes_out_ack; now rewrite Hd, Ho |].
  split; [exact Hn |].
  unfold okay_to_receive, expected_pid_match, sufficient_space in Ho.
  apply andb_prop in Ho. destruct Ho as [Ho Hpid].
  apply andb_prop in Ho. destruct Ho as [_ Hsp].
  split; [now apply eqb_prop |].
  rewrite Z.geb_leb in Hsp. now apply Z.leb_le.
Qed.

Lemma toggle_changes_only_with_ack_witness :
  handshakes_out_ack ep1 (reset ep1) (response_slot false false) = true
  /\ handshakes_out_nak ep1 (reset ep1) (response_slot false false) = false.
Proof.
  destruct (toggle_changes_only_with_ack ep1 (reset ep1)
              (response_slot false false)) as (Ha & Hn & _).
  - cbn. discriminate.
  - split; assumption.
Defined.

(** A DATA response requested for a packet with the expected DATA PID
    while fewer than max-packet-size bytes are free is answered with NAK:
    no ACK, no write strobe, and the toggle keeps its value. *)
Theorem nak_without_room c s i :
  targeting_endpoint c i = true ->
  rx_ready_for_response i = true ->
  rx_pid_toggle i = expected_data_toggle s ->
  FIFO.space_available (fifo s) < _max_packet_size c ->
  handshakes_out_nak c s i = true
  /\ handshakes_out_ack c s i = false
  /\ fifo_write_en c s i = false
  /\ expected_data_toggle (step c s i) = expected_data_toggle s.
Proof.
  intros Ht Hr Hpid Hsp.
  assert (Hskip : should_skip c s i = false).
  { unfold should_skip, expected_pid_match. rewrite Hpid, eqb_reflx.
    apply andb_false_r. }
  assert (Hok : okay_to_receive c s i = false).
  { unfold okay_to_receive, sufficient_space.
    replace (FIFO.space_available (fifo s) >=? _max_packet_size c) with false
      by (symmetry; rewrite Z.geb_leb; apply Z.leb_gt; lia).
    now rewrite andb_false_r. }
  assert (Hd : data_response_requested c i = true).
  { unfold data_response_requested. rewrite Hr, andb_true_r.
    unfold targeting_endpoint in *. apply andb_prop in Ht as Ht'.
    destruct Ht' as [-> ->]. reflexivity. }
  unfold handshakes_out_nak, handshakes_out_ack, fifo_write_en.
  rewrite toggle_step, Hskip, Hok, Hd. cbn.
  rewrite !andb_false_r, xorb_false_r. auto.
Qed.

Lemma nak_without_room_witness :
  let s := run ep1 (reset ep1) (good_packet false false payload8
                                   ++ good_packet true false payload8) in
  FIFO.space_available (fifo s) = 7
  /\ handshakes_out_nak ep1 s (response_slot true false) = true
  /\ handshakes_out_ack ep1 s (response_slot true false) = false.
Proof.
  cbv zeta. split; [vm_compute; reflexivity |].
  destruct (nak_without_room ep1
              (run ep1 (reset ep1) (good_packet false false payload8
                                      ++ good_packet true false payload8))
              (response_slot true false)) as (Hn & Ha & _);
    [reflexivity | reflexivity | vm_compute; reflexivity
     | vm_compute; reflexivity |].
  split; assumption.
Defined.

(** ** Tokens for other endpoints *)

Lemma foreign_step c s i :
  tokenizer_endpoint i <> _endpoint_number c ->
  handshakes_out_ack c s i = false
  /\ handshakes_out_nak c s i = false
  /\ fifo_write_en c s i = false
  /\ fifo_write_commit c i = false
  /\ fifo_write_discard c i = false
  /\ expected_data_toggle (step c s i) = expected_data_toggle s.
Proof.
  intros Hne. apply Z.eqb_neq in Hne.
  rewrite toggle_step. comb. rewrite Hne. cbn. rewrite xorb_false_r. auto 7.
Qed.

(** While the tokenizer reports another endpoint number the endpoint is
    inert on the bus side: it drives neither ACK nor NAK, strobes nothing
    into the FIFO, neither commits nor discards the open run and keeps its
    toggle; the consumer keeps draining what was committed before. *)
Theorem other_endpoints_ignored c tr : forall s,
  Forall (fun i => tokenizer_endpoint i <> _endpoint_number c) tr ->
  map out_ack (trace c s tr) = repeat false (length tr)
  /\ map out_nak (trace c s tr) = repeat false (length tr)
  /\ written c s tr = []
  /\ expected_data_toggle (run c s tr) = expected_data_toggle s
  /\ FIFO.pending (fifo (run c s tr)) = FIFO.pending (fifo s)
  /\ delivered c s tr ++ FIFO.committed (fifo (run c s tr))
     = FIFO.committed (fifo s).
Proof.
  induction tr as [|i tr IH]; intros s Hall.
  - cbn. auto 7.
  - inversion Hall as [|? ? Hi Htr]; subst.
    destruct (foreign_step c s i Hi) as (Ha & Hn & Hw & Hc & Hd & Ht).
    destruct (IH (step c s i) Htr) as (IHa & IHn & IHw & IHt & IHp & IHd).
    cbn [trace map written run delivered drive out_ack out_nak length repeat].
    rewrite IHa, IHn, IHw, IHt, IHp, Ha, Hn, Hw, Ht.
    repeat split; auto.
    + rewrite pending_step, Hc, Hd, Hw, pending_write_off. reflexivity.
    + rewrite <- app_assoc, IHd, committed_step, Hc, Hd.
      now rewrite app_nil_r, head_then_rest.
Qed.

Lemma other_endpoints_ignored_witness :
  let foreign := mk_inputs 2 true false false true false 7 true true true
                           false true false false in
  map out_ack (trace ep1 (reset ep1) [foreign; foreign]) = [false; false]
  /\ written ep1 (reset ep1) [foreign; foreign] = [].
Proof.
  cbv zeta.
  destruct (other_endpoints_ignored ep1
              [mk_inputs 2 true false false true false 7 true true true
                         false true false false;
               mk_inputs 2 true false false true false 7 true true true
                         false true false false] (reset ep1))
    as (Ha & _ & Hw & _).
  - repeat constructor; cbn; lia.
  - split; assumption.
Defined.

(** ** A whole packet *)

Section Packet.

Variable c : config.
Variable pid : bool.
Hypothesis Hmps : 1 <= _max_packet_size c.

Lemma data_byte_for_cycle first last b :
  receiving c pid (data_byte_for (_endpoint_number c) pid first last b) = true
  /\ rx_ready_for_response (data_byte_for (_endpoint_number c) pid first last b)
     = false
  /\ tokenizer_is_ping (data_byte_for (_endpoint_number c) pid first last b)
     = false.
Proof.
  split; [| split; reflexivity].
  unfold receiving, targeting_endpoint, endpoint_number_matches. cbn.
  now rewrite Z.eqb_refl, eqb_reflx.
Qed.

Lemma data_bytes_for_cycles bs : forall first,
  Forall (fun i => receiving c pid i = true
                   /\ rx_ready_for_response i = false
                   /\ tokenizer_is_ping i = false)
         (data_bytes_for (_endpoint_number c) pid first bs)
  /\ length (data_bytes_for (_endpoint_number c) pid first bs) = length bs.
Proof.
  induction bs as [|b bs IH]; intros first; [split; [constructor | reflexivity] |].
  destruct bs as [|b' bs].
  - split; [| reflexivity]. constructor; [apply data_byte_for_cycle | constructor].
  - destruct (IH false) as [Hall Hlen].
    change (data_bytes_for (_endpoint_number c) pid first (b :: b' :: bs))
      with (data_byte_for (_endpoint_number c) pid first false b
              :: data_bytes_for (_endpoint_number c) pid false (b' :: bs)).
    split; [constructor; [apply data_byte_for_cycle | exact Hall] |].
    cbn [length] in *. now rewrite Hlen.
Qed.

Lemma receiving_no_commit i :
  receiving c pid i = true -> fifo_write_commit c i = false.
Proof.
  intros H. destruct (receiving_signals c pid i H) as (_ & _ & _ & _ & _ & Hc & _).
  unfold fifo_write_commit. now rewrite Hc, andb_false_r.
Qed.

Lemma commit_cycle_step s r :
  let i := end_of_packet_for (_endpoint_number c) pid true r in
  handshakes_out_ack c s i = false
  /\ handshakes_out_nak c s i = false
  /\ fifo_write_en c s i = false
  /\ expected_data_toggle (step c s i) = expected_data_toggle s
  /\ fifo (step c s i)
     = FIFO.mk (FIFO.depth (fifo s))
               ((if r then tl (FIFO.committed (fifo s))
                 else FIFO.committed (fifo s)) ++ FIFO.pending (fifo s))
               [].
Proof.
  cbv zeta.
  destruct (quiet_cycle c s (end_of_packet_for (_endpoint_number c) pid true r))
    as [Ha Hn]; [reflexivity | reflexivity |].
  assert (Hw : fifo_write_en c s (end_of_packet_for (_endpoint_number c) pid true r)
               = false)
    by (unfold fifo_write_en; cbn; now rewrite !andb_false_r).
  repeat split; auto.
  - rewrite toggle_step. unfold data_response_requested. cbn.
    rewrite !andb_false_r. cbn. apply xorb_false_r.
  - unfold step; cbn [fifo]. rewrite Hw.
    replace (fifo_write_commit c (end_of_packet_for (_endpoint_number c) pid true r))
      with true
      by (comb; cbn; now rewrite Z.eqb_refl).
    replace (fifo_write_discard c (end_of_packet_for (_endpoint_number c) pid true r))
      with false
      by (comb; cbn; now rewrite Z.eqb_refl).
    unfold FIFO.step, FIFO.finish, FIFO.write, FIFO.read, fifo_read_en.
    cbn. destruct r; reflexivity.
Qed.

Lemma response_cycle_step s r :
  expected_data_toggle s = pid ->
  _max_packet_size c <= FIFO.space_available (fifo s) ->
  let i := response_slot_for (_endpoint_number c) pid r in
  handshakes_out_ack c s i = true
  /\ handshakes_out_nak c s i = false
  /\ fifo_write_en c s i = false
  /\ expected_data_toggle (step c s i) = negb pid
  /\ fifo (step c s i) = FIFO.read r (fifo s).
Proof.
  intros Ht Hsp. cbv zeta.
  set (i := response_slot_for (_endpoint_number c) pid r).
  assert (Hok : okay_to_receive c s i = true).
  { comb. cbn. rewrite Z.eqb_refl, Ht, eqb_reflx.
    replace (FIFO.space_available (fifo s) >=? _max_packet_size c) with true
      by (symmetry; rewrite Z.geb_leb; apply Z.leb_le; lia).
    reflexivity. }
  assert (Hd : data_response_requested c i = true)
    by (comb; cbn; now rewrite Z.eqb_refl).
  assert (Hp : ping_response_requested c i = false)
    by (comb; cbn; now rewrite !andb_false_r).
  assert (Hw : fifo_write_en c s i = false)
    by (unfold fifo_write_en; cbn; now rewrite !andb_false_r).
  repeat split.
  - unfold handshakes_out_ack. now rewrite Hd, Hok.
  - unfold handshakes_out_nak. now rewrite Hd, Hok, Hp.
  - exact Hw.
  - rewrite toggle_step, Hd, Hok, Ht. now destruct pid.
  - unfold step; cbn [fifo]. rewrite Hw.
    replace (fifo_write_commit c i) with false
      by (comb; cbn; now rewrite andb_false_r).
    replace (fifo_write_discard c i) with false
      by (comb; cbn; now rewrite andb_false_r).
    unfold FIFO.step, FIFO.finish, FIFO.write. reflexivity.
Qed.

Lemma packet_taken s bs r_end r_resp :
  expected_data_toggle s = pid ->
  FIFO.pending (fifo s) = [] ->
  _max_packet_size c + Z.of_nat (length bs) <= FIFO.space_available (fifo s) ->
  written c s (good_packet_for (_endpoint_number c) pid bs r_end r_resp)
  = map fifo_write_data (data_bytes_for (_endpoint_number c) pid true bs)
  /\ map out_ack
       (trace c s (good_packet_for (_endpoint_number c) pid bs r_end r_resp))
     = repeat false (length bs + 1) ++ [true]
  /\ map out_nak
       (trace c s (good_packet_for (_endpoint_number c) pid bs r_end r_resp))
     = repeat false (length bs + 2)
  /\ expected_data_toggle
       (run c s (good_packet_for (_endpoint_number c) pid bs r_end r_resp))
     = negb pid
  /\ FIFO.pending
       (fifo (run c s (good_packet_for (_endpoint_number c) pid bs r_end r_resp)))
     = []
  /\ delivered c s (good_packet_for (_endpoint_number c) pid bs r_end r_resp)
       ++ FIFO.committed
            (fifo (run c s
                       (good_packet_for (_endpoint_number c) pid bs r_end r_resp)))
     = FIFO.committed (fifo s)
         ++ map fifo_write_data (data_bytes_for (_endpoint_number c) pid true bs).
Proof.
  intros Ht Hp Hsp. unfold good_packet_for.
  destruct (data_bytes_for_cycles bs true) as [Hcyc Hlen].
  set (D := data_bytes_for (_endpoint_number c) pid true bs) in *.
  assert (Hrx : Forall (fun i => receiving c pid i = true) D)
    by (eapply Forall_impl; [| exact Hcyc]; cbn; tauto).
  assert (Hqt : Forall (fun i => rx_ready_for_response i = false
                                 /\ tokenizer_is_ping i = false) D)
    by (eapply Forall_impl; [| exact Hcyc]; cbn; tauto).
  destruct (receiving_run c pid D s Hmps Hrx Ht) as (Dw & Dc & Dt & Dp & Ds);
    [lia |].
  destruct (quiet_run c D s Hqt) as [Da Dn].
  pose proof (delivered_without_commit c s D Dc) as Dd.
  set (s1 := run c s D) in *.
  destruct (commit_cycle_step s1 r_end) as (Ea & En & Ew & Et & Ef).
  set (s2 := step c s1 (end_of_packet_for (_endpoint_number c) pid true r_end)) in *.
  assert (Hs2 : _max_packet_size c <= FIFO.space_available (fifo s2)).
  { pose proof (space_after_read (fifo s1) r_end) as Hr.
    rewrite Ef. unfold FIFO.space_available, FIFO.occupancy in *.
    unfold FIFO.read in Hr.
    cbn [FIFO.depth FIFO.committed FIFO.pending length] in *.
    rewrite length_app.
    destruct r_end; cbn [FIFO.depth FIFO.committed FIFO.pending] in Hr; lia. }
  destruct (response_cycle_step s2 r_resp) as (Ra & Rn & Rw & Rt & Rf);
    [now rewrite Et | exact Hs2 |].
  rewrite written_app, trace_app, !map_app, run_app, delivered_app.
  fold s1. cbn [written trace map run delivered drive out_ack out_nak].
  fold s2. rewrite Dw, Da, Dn, Ea, En, Ew, Ra, Rn, Rw, Rt, Rf, Hlen.
  cbn [app]. rewrite !app_nil_r.
  split; [reflexivity |].
  split; [rewrite repeat_app, <- app_assoc; reflexivity |].
  split; [rewrite repeat_app; reflexivity |].
  split; [reflexivity |].
  split; [unfold FIFO.read; rewrite Ef; now destruct r_resp |].
  assert (H2 : (if stream_valid s1
                   && stream_ready
                        (end_of_packet_for (_endpoint_number c) pid true r_end)
                then [FIFO.read_data (fifo s1)] else [])
               ++ FIFO.committed (fifo s2)
               = FIFO.committed (fifo s1) ++ FIFO.pending (fifo s1)).
  { rewrite Ef. cbn [FIFO.committed]. rewrite app_assoc.
    f_equal.
    apply (head_then_rest s1
             (end_of_packet_for (_endpoint_number c) pid true r_end)). }
  assert (H3 : (if stream_valid s2
                   && stream_ready (response_slot_for (_endpoint_number c) pid r_resp)
                then [FIFO.read_data (fifo s2)] else [])
               ++ FIFO.committed (FIFO.read r_resp (fifo s2))
               = FIFO.committed (fifo s2)).
  { pose proof (head_then_rest s2
                  (response_slot_for (_endpoint_number c) pid r_resp)) as H.
    unfold FIFO.read. unfold fifo_read_en in H. cbn in H |- *.
    destruct r_resp; exact H. }
  rewrite <- !app_assoc, H3.
  rewrite (app_assoc _ _ (FIFO.committed (fifo s2))) at 1.
  rewrite <- app_assoc, H2, Dp, Hp. cbn [app].
  rewrite app_assoc, Dd. reflexivity.
Qed.

End Packet.

(** An OUT data packet addressed to the endpoint (max-packet-size at
    least 1) that carries the expected DATA PID and arrives, with no run
    open, while max-packet-size plus its own length are free, is taken
    whole for any pattern of the consumer's ready: every byte is strobed
    into the FIFO, the run is committed behind what was queued, the
    response slot is answered with ACK, NAK is never driven, and the
    toggle flips. *)
Theorem whole_packet_accepted c pid s bs r_end r_resp :
  1 <= _max_packet_size c ->
  expected_data_toggle s = pid ->
  FIFO.pending (fifo s) = [] ->
  _max_packet_size c + Z.of_nat (length bs) <= FIFO.space_available (fifo s) ->
  written c s (good_packet_for (_endpoint_number c) pid bs r_end r_resp)
  = map fifo_write_data (data_bytes_for (_endpoint_number c) pid true bs)
  /\ map out_ack
       (trace c s (good_packet_for (_endpoint_number c) pid bs r_end r_resp))
     = repeat false (length bs + 1) ++ [true]
  /\ map out_nak
       (trace c s (good_packet_for (_endpoint_number c) pid bs r_end r_resp))
     = repeat false (length bs + 2)
  /\ expected_data_toggle
       (run c s (good_packet_for (_endpoint_number c) pid bs r_end r_resp))
     = negb pid
  /\ FIFO.pending
       (fifo (run c s (good_packet_for (_endpoint_number c) pid bs r_end r_resp)))
     = []
  /\ delivered c s (good_packet_for (_endpoint_number c) pid bs r_end r_resp)
       ++ FIFO.committed
            (fifo (run c s
                       (good_packet_for (_endpoint_number c) pid bs r_end r_resp)))
     = FIFO.committed (fifo s)
         ++ map fifo_write_data (data_bytes_for (_endpoint_number c) pid true bs).
Proof. intros. now apply packet_taken. Qed.

Lemma whole_packet_accepted_witness :
  let c := mk_config 5 8 16 in
  let tr := good_packet_for 5 false [(1, true); (2, false); (3, true)] false true in
  written c (reset c) tr = [513; 2; 259]
  /\ expected_data_toggle (run c (reset c) tr) = true.
Proof.
  cbv zeta.
  destruct (whole_packet_accepted (mk_config 5 8 16) false
              (reset (mk_config 5 8 16)) [(1, true); (2, false); (3, true)]
              false true)
    as (Hw & _ & _ & Ht & _);
    [vm_compute; discriminate | reflexivity | reflexivity
     | vm_compute; discriminate |].
  split; [exact Hw | exact Ht].
Defined.

(** An endpoint constructed without a buffer size, so with twice the
    max-packet-size (at least 1), takes from reset any DATA0 packet of at
    most max-packet-size bytes addressed to it, for any pattern of the
    consumer's ready: the response is ACK, NAK is never driven, DATA1 is
    expected next, and the bytes handed to the consumer plus the bytes
    queued are the packet's entries in order. *)
Theorem default_buffer_takes_first_packet
        endpoint_number max_packet_size c bs r_end r_resp :
  __init__ endpoint_number max_packet_size None = Some c ->
  1 <= max_packet_size ->
  Z.of_nat (length bs) <= max_packet_size ->
  map out_ack
      (trace c (reset c) (good_packet_for endpoint_number false bs r_end r_resp))
  = repeat false (length bs + 1) ++ [true]
  /\ map out_nak
       (trace c (reset c) (good_packet_for endpoint_number false bs r_end r_resp))
     = repeat false (length bs + 2)
  /\ expected_data_toggle
       (run c (reset c) (good_packet_for endpoint_number false bs r_end r_resp))
     = true
  /\ delivered c (reset c) (good_packet_for endpoint_number false bs r_end r_resp)
       ++ FIFO.committed
            (fifo (run c (reset c)
                       (good_packet_for endpoint_number false bs r_end r_resp)))
     = map fifo_write_data (data_bytes_for endpoint_number false true bs).
Proof.
  intros Hinit Hmps Hlen. injection Hinit as <-.
  destruct (packet_taken
              (mk_config endpoint_number max_packet_size (max_packet_size * 2))
              false Hmps
              (reset (mk_config endpoint_number max_packet_size
                                (max_packet_size * 2)))
              bs r_end r_resp)
    as (_ & Ha & Hn & Ht & _ & Hd);
    [reflexivity | reflexivity
     | unfold FIFO.space_available, FIFO.occupancy; cbn; lia |].
  cbn [_endpoint_number] in *. auto.
Qed.

Lemma default_buffer_takes_first_packet_witness :
  exists c,
    __init__ 3 8 None = Some c
    /\ expected_data_toggle
         (run c (reset c)
              (good_packet_for 3 false
                 [(1, false); (2, false); (3, false); (4, false);
                  (5, false); (6, false); (7, false); (8, false)] false false))
       = true.
Proof.
  exists (mk_config 3 8 16). split; [reflexivity |].
  destruct (default_buffer_takes_first_packet 3 8 (mk_config 3 8 16)
              [(1, false); (2, false); (3, false); (4, false);
               (5, false); (6, false); (7, false); (8, false)] false false)
    as (_ & _ & Ht & _);
    [reflexivity | vm_compute; discriminate | vm_compute; discriminate |].
  exact Ht.
Defined.

(** ** Packets in sequence *)

Lemma no_response_keeps_toggle c tr : forall s,
  Forall (fun i => rx_ready_for_response i = false) tr ->
  expected_data_toggle (run c s tr) = expected_data_toggle s.
Proof.
  induction tr as [|i tr IH]; intros s Hall; [reflexivity |].
  apply Forall_cons_iff in Hall as [Hi Htr].
  cbn [run]. rewrite IH by assumption. rewrite toggle_step.
  unfold data_response_requested. rewrite Hi, andb_false_r. cbn.
  apply xorb_false_r.
Qed.

Lemma bad_packet_quiet c pid bs r_end :
  Forall (fun i => rx_ready_for_response i = false
                   /\ tokenizer_is_ping i = false)
         (bad_packet_for (_endpoint_number c) pid bs r_end)
  /\ Forall (fun i => fifo_write_commit c i = false)
            (bad_packet_for (_endpoint_number c) pid bs r_end)
  /\ length (bad_packet_for (_endpoint_number c) pid bs r_end)
     = (length bs + 1)%nat.
Proof.
  destruct (data_bytes_for_cycles c pid bs true) as [Hcyc Hlen].
  unfold bad_packet_for. split; [| split].
  - apply Forall_app. split; [| repeat constructor].
    eapply Forall_impl; [| exact Hcyc]. cbn. tauto.
  - apply Forall_app. split.
    + eapply Forall_impl; [| exact Hcyc]. cbn.
      intros i (Hrx & _). now apply (receiving_no_commit c pid).
    + repeat constructor. comb. cbn. apply andb_false_r.
  - rewrite length_app, Hlen. reflexivity.
Qed.

(** After a packet that fails its integrity check the endpoint is where
    it was before the packet, less what the consumer took meanwhile. *)
Lemma bad_packet_undone c pid bs r_end s :
  expected_data_toggle (run c s (bad_packet_for (_endpoint_number c) pid bs r_end))
  = expected_data_toggle s
  /\ FIFO.pending
       (fifo (run c s (bad_packet_for (_endpoint_number c) pid bs r_end))) = []
  /\ delivered c s (bad_packet_for (_endpoint_number c) pid bs r_end)
       ++ FIFO.committed
            (fifo (run c s (bad_packet_for (_endpoint_number c) pid bs r_end)))
     = FIFO.committed (fifo s)
  /\ (FIFO.pending (fifo s) = [] ->
      FIFO.space_available (fifo s)
      <= FIFO.space_available
           (fifo (run c s (bad_packet_for (_endpoint_number c) pid bs r_end)))).
Proof.
  destruct (bad_packet_quiet c pid bs r_end) as (Hq & Hc & _).
  pose proof (delivered_without_commit c s _ Hc) as Hd.
  assert (Hp : FIFO.pending
                 (fifo (run c s (bad_packet_for (_endpoint_number c) pid bs r_end)))
               = []).
  { unfold bad_packet_for. rewrite run_app. cbn [run]. rewrite pending_step.
    replace (fifo_write_discard c
               (end_of_packet_for (_endpoint_number c) pid false r_end))
      with true by (comb; cbn; now rewrite Z.eqb_refl).
    reflexivity. }
  split.
  { apply no_response_keeps_toggle.
    eapply Forall_impl; [| exact Hq]. cbn. tauto. }
  split; [exact Hp |]. split; [exact Hd |].
  intros Hp0. unfold FIFO.space_available, FIFO.occupancy.
  rewrite fifo_depth_run, Hp, Hp0, <- Hd, length_app. cbn [length]. lia.
Qed.

(** An OUT data packet addressed to the endpoint that fails its integrity
    check, followed by its retry with the same DATA PID (the expected one,
    no run open, max-packet-size plus the retry's length free): neither
    ACK nor NAK is driven during the failed packet, the retry is answered
    with ACK and never NAK, the toggle flips once, and the consumer stream
    gains the bytes of the retry exactly once and nothing of the failed
    packet. *)
Theorem retry_after_failed_packet c pid s failed r_fail bs r_end r_resp :
  1 <= _max_packet_size c ->
  expected_data_toggle s = pid ->
  FIFO.pending (fifo s) = [] ->
  _max_packet_size c + Z.of_nat (length bs) <= FIFO.space_available (fifo s) ->
  let tr := bad_packet_for (_endpoint_number c) pid failed r_fail
              ++ good_packet_for (_endpoint_number c) pid bs r_end r_resp in
  map out_ack (trace c s tr)
  = repeat false (length failed + 1) ++ repeat false (length bs + 1) ++ [true]
  /\ map out_nak (trace c s tr)
     = repeat false (length failed + 1) ++ repeat false (length bs + 2)
  /\ expected_data_toggle (run c s tr) = negb pid
  /\ FIFO.pending (fifo (run c s tr)) = []
  /\ delivered c s tr ++ FIFO.committed (fifo (run c s tr))
     = FIFO.committed (fifo s)
         ++ map fifo_write_data (data_bytes_for (_endpoint_number c) pid true bs).
Proof.
  intros Hmps Ht Hp Hsp. cbv zeta.
  destruct (bad_packet_undone c pid failed r_fail s) as (Bt & Bp & Bd & Bs).
  specialize (Bs Hp).
  destruct (bad_packet_quiet c pid failed r_fail) as (Hq & _ & Hlen).
  destruct (quiet_run c _ s Hq) as [Ba Bn].
  destruct (packet_taken c pid Hmps
              (run c s (bad_packet_for (_endpoint_number c) pid failed r_fail))
              bs r_end r_resp)
    as (_ & Ga & Gn & Gt & Gp & Gd); [congruence | exact Bp | lia |].
  rewrite trace_app, !map_app, run_app, delivered_app.
  rewrite Ga, Gn, Gt, Gp, Ba, Bn, Hlen.
  split; [reflexivity |]. split; [reflexivity |].
  split; [reflexivity |]. split; [reflexivity |].
  rewrite <- app_assoc, Gd.
  rewrite (app_assoc
             (delivered c s (bad_packet_for (_endpoint_number c) pid failed r_fail))).
  now rewrite Bd.
Qed.

Lemma retry_after_failed_packet_witness :
  let c := mk_config 5 8 16 in
  let tr := bad_packet_for 5 false [(9, false); (9, false)] false
              ++ good_packet_for 5 false [(1, false); (2, false); (3, false)]
                                 false false in
  map out_nak (trace c (reset c) tr) = repeat false 8
  /\ delivered c (reset c) tr ++ FIFO.committed (fifo (run c (reset c) tr))
     = [513; 2; 259].
Proof.
  cbv zeta.
  destruct (retry_after_failed_packet (mk_config 5 8 16) false
              (reset (mk_config 5 8 16)) [(9, false); (9, false)] false
              [(1, false); (2, false); (3, false)] false false)
    as (_ & Hn & _ & _ & Hd);
    [vm_compute; discriminate | reflexivity | reflexivity
     | vm_compute; discriminate |].
  split; [exact Hn | exact Hd].
Defined.

Lemma skipped_run_no_nak c tr : forall s,
  Forall (fun i => should_skip c s i = true /\ tokenizer_is_ping i = false) tr ->
  map out_nak (trace c s tr) = repeat false (length tr).
Proof.
  induction tr as [|i tr IH]; intros s Hall; [reflexivity |].
  apply Forall_cons_iff in Hall as [[Hs Hp] Htr].
  destruct (skip_step c s i Hs) as (Ho & _ & _ & Ht).
  cbn [trace map drive out_nak length repeat]. rewrite IH.
  - f_equal. unfold handshakes_out_nak, ping_response_requested.
    rewrite Hs, Hp, !andb_false_r. reflexivity.
  - eapply Forall_impl; [| exact Htr]. cbn. intros j [Hj Hpj]. split; [| exact Hpj].
    now rewrite (should_skip_toggle c s (step c s i) j Ht).
Qed.

(** An accepted OUT data packet followed by another packet with the same
    DATA PID, as the host retransmits after a lost ACK: both response
    slots are answered with ACK, NAK is never driven, only the first
    packet's bytes are strobed into the FIFO, the toggle flips once, and
    the consumer stream gains the first packet's bytes exactly once. *)
Theorem retransmission_delivered_once c pid s bs r_end r_resp again r_end' r_resp' :
  1 <= _max_packet_size c ->
  expected_data_toggle s = pid ->
  FIFO.pending (fifo s) = [] ->
  _max_packet_size c + Z.of_nat (length bs) <= FIFO.space_available (fifo s) ->
  let tr := good_packet_for (_endpoint_number c) pid bs r_end r_resp
              ++ good_packet_for (_endpoint_number c) pid again r_end' r_resp' in
  map out_ack (trace c s tr)
  = (repeat false (length bs + 1) ++ [true])
      ++ (repeat false (length again + 1) ++ [true])
  /\ map out_nak (trace c s tr)
     = repeat false (length bs + 2) ++ repeat false (length again + 2)
  /\ written c s tr
     = map fifo_write_data (data_bytes_for (_endpoint_number c) pid true bs)
  /\ expected_data_toggle (run c s tr) = negb pid
  /\ delivered c s tr ++ FIFO.committed (fifo (run c s tr))
     = FIFO.committed (fifo s)
         ++ map fifo_write_data (data_bytes_for (_endpoint_number c) pid true bs).
Proof.
  intros Hmps Ht Hp Hsp. cbv zeta.
  destruct (packet_taken c pid Hmps s bs r_end r_resp Ht Hp Hsp)
    as (Gw & Ga & Gn & Gt & Gp & Gd).
  set (P1 := good_packet_for (_endpoint_number c) pid bs r_end r_resp) in *.
  set (P2 := good_packet_for (_endpoint_number c) pid again r_end' r_resp').
  set (s1 := run c s P1) in *.
  destruct (data_bytes_for_cycles c pid again true) as [Hcyc Hlen].
  assert (Hone : forall payload valid first last complete invalid respond ready,
             should_skip c s1 (cycle_for (_endpoint_number c) pid payload valid
                                         first last complete invalid respond ready)
             = true).
  { intros. comb. cbn. rewrite Z.eqb_refl, Gt. now destruct pid. }
  assert (Hskip : Forall (fun i => should_skip c s1 i = true
                                   /\ tokenizer_is_ping i = false) P2).
  { unfold P2, good_packet_for. apply Forall_app. split.
    - clear Hlen. remember (data_bytes_for (_endpoint_number c) pid true again) as D.
      clear HeqD. induction Hcyc as [|i D Hi _ IH]; constructor; auto.
      destruct (receiving_signals c pid i (proj1 Hi)) as (Htg & Hpid & _).
      split; [| tauto].
      unfold should_skip, expected_pid_match. rewrite Htg, Hpid, Gt.
      now destruct pid.
    - repeat constructor; apply Hone. }
  assert (Hskip' : Forall (fun i => should_skip c s1 i = true) P2)
    by (eapply Forall_impl; [| exact Hskip]; cbn; tauto).
  destruct (skip_run c P2 s1 Gp Hskip') as (Sa & Sw & St & _ & Sd).
  pose proof (skipped_run_no_nak c P2 s1 Hskip) as Sn.
  assert (Hreq : map (data_response_requested c) P2
                 = repeat false (length again + 1) ++ [true]).
  { unfold P2, good_packet_for. rewrite map_app. cbn [map].
    replace (data_response_requested c
               (end_of_packet_for (_endpoint_number c) pid true r_end'))
      with false by (comb; cbn; now rewrite andb_false_r).
    replace (data_response_requested c
               (response_slot_for (_endpoint_number c) pid r_resp'))
      with true by (comb; cbn; now rewrite Z.eqb_refl).
    rewrite repeat_app, <- app_assoc. cbn [repeat app]. f_equal.
    rewrite <- Hlen. clear Hlen Hskip Hskip' Sa Sw St Sd Sn.
    remember (data_bytes_for (_endpoint_number c) pid true again) as D.
    clear HeqD. induction Hcyc as [|i D Hi _ IH]; [reflexivity |].
    cbn [map length repeat]. rewrite IH. f_equal.
    destruct Hi as (_ & Hr & _). unfold data_response_requested.
    now rewrite Hr, andb_false_r. }
  assert (Hlen2 : length P2 = (length again + 2)%nat).
  { unfold P2, good_packet_for. rewrite length_app, Hlen. reflexivity. }
  rewrite trace_app, !map_app, written_app, run_app, delivered_app.
  fold s1. rewrite Ga, Gn, Gw, Sa, Sn, Sw, St, Gt, Hreq, Hlen2, app_nil_r.
  split; [reflexivity |]. split; [reflexivity |].
  split; [reflexivity |]. split; [reflexivity |].
  rewrite <- app_assoc, Sd. exact Gd.
Qed.

Lemma retransmission_delivered_once_witness :
  let c := mk_config 5 8 16 in
  let p := good_packet_for 5 false [(1, false); (2, false); (3, false)]
                           false false in
  written c (reset c) (p ++ p) = [513; 2; 259]
  /\ map out_ack (trace c (reset c) (p ++ p))
     = [false; false; false; false; true; false; false; false; false; true].
Proof.
  cbv zeta.
  destruct (retransmission_delivered_once (mk_config 5 8 16) false
              (reset (mk_config 5 8 16))
              [(1, false); (2, false); (3, false)] false false
              [(1, false); (2, false); (3, false)] false false)
    as (Ha & _ & Hw & _);
    [vm_compute; discriminate | reflexivity | reflexivity
     | vm_compute; discriminate |].
  split; [exact Hw | exact Ha].
Defined.

End OutEndpointExtras.

(** * Further properties of the word adapter *)

Module WordAdapterExtras.

Import Bits USBMultibyteStreamInEndpoint WordAdapter WordAdapterClaims.

(** ** Any producer, any consumer *)

(** Whatever the producer offers and whenever the inner endpoint is ready,
    the bytes handed over since reset followed by the bytes still in the
    shift register are the little-endian bytes of the words taken since
    reset, each word's first on its byte 0 and last on its final byte: no
    byte is lost, repeated or reordered, and no word is overwritten. *)
Theorem bytes_of_taken_words c tr :
  1 <= _byte_width c ->
  Forall (fun i => fits c (word_stream_data i)) tr ->
  emitted c reset tr ++ in_flight c (run c reset tr)
  = flat_map (word_tokens (Z.to_nat (_byte_width c))) (accepted c reset tr).
Proof.
  intros Hw Htr.
  now rewrite (bytes_follow_words c Hw tr reset (or_introl eq_refl) Htr).
Qed.

Lemma bytes_of_taken_words_witness :
  let offer w r := mk_inputs true (mk_word w false false) r in
  let pause r := mk_inputs false (mk_word 0 false false) r in
  let tr := [offer 513 false; pause false; offer 1027 true; pause true;
             offer 1541 true] in
  emitted (mk_config 2 1 64) reset tr = [mk_byte 1 false false; mk_byte 2 false false]
  /\ emitted (mk_config 2 1 64) reset tr
       ++ in_flight (mk_config 2 1 64) (run (mk_config 2 1 64) reset tr)
     = flat_map (word_tokens 2) (accepted (mk_config 2 1 64) reset tr).
Proof.
  cbv zeta. split; [reflexivity |].
  apply (bytes_of_taken_words (mk_config 2 1 64)).
  - vm_compute; discriminate.
  - repeat constructor; vm_compute; discriminate.
Defined.

(** Words with any first and last flags, offered in order by a producer
    that holds each word until it is taken: the inner stream gets, one per
    ready cycle after the cycle that loads the first word, the
    little-endian bytes of the words, first only on byte 0 of a word that
    carries it and last only on the final byte of a word that carries it;
    with enough ready cycles it gets them all. *)
Theorem flagged_words_serialised c ws readys :
  1 <= _byte_width c ->
  Forall (fits c) ws ->
  feed c reset ws readys
  = firstn (ready_cycles (tl readys))
           (flat_map (word_tokens (Z.to_nat (_byte_width c))) ws)
  /\ ((length ws * Z.to_nat (_byte_width c) <= ready_cycles (tl readys))%nat ->
      feed c reset ws readys
      = flat_map (word_tokens (Z.to_nat (_byte_width c))) ws).
Proof.
  intros Hw Hws. pose proof (feed_from_reset c Hw ws readys Hws) as Hfeed.
  split; [exact Hfeed |].
  intros Hall. rewrite Hfeed. apply firstn_all2.
  assert (Hlen : forall l,
             length (flat_map (word_tokens (Z.to_nat (_byte_width c))) l)
             = (length l * Z.to_nat (_byte_width c))%nat).
  { induction l as [|w l IH]; [reflexivity |].
    cbn [flat_map length]. rewrite length_app, IH.
    unfold word_tokens. rewrite length_map, length_seq. lia. }
  now rewrite Hlen.
Qed.

Lemma flagged_words_serialised_witness :
  feed (mk_config 2 1 64) reset
       [mk_word 513 true true; mk_word 1027 true true] (repeat true 5)
  = [mk_byte 1 true false; mk_byte 2 false true;
     mk_byte 3 true false; mk_byte 4 false true].
Proof.
  destruct (flagged_words_serialised (mk_config 2 1 64)
              [mk_word 513 true true; mk_word 1027 true true] (repeat true 5))
    as [_ Hall].
  - vm_compute; discriminate.
  - repeat constructor; vm_compute; discriminate.
  - rewrite Hall; [reflexivity | vm_compute; lia].
Defined.

(** ** One-byte words *)

(** With a byte width of 1 the adapter passes the stream through: every
    word becomes one byte with the word's payload, first and last. *)
Theorem single_byte_words_pass_through c ws readys :
  _byte_width c = 1 ->
  Forall (fits c) ws ->
  feed c reset ws readys
  = firstn (ready_cycles (tl readys))
           (map (fun w => mk_byte (w_payload w) (w_first w) (w_last w)) ws).
Proof.
  intros H1 Hws.
  rewrite feed_from_reset by (try lia; assumption).
  rewrite H1. change (Z.to_nat 1) with 1%nat. f_equal.
  induction Hws as [|w ws Hw _ IH]; [reflexivity |].
  cbn [flat_map map]. rewrite IH.
  unfold fits in Hw. rewrite H1 in Hw. change (256 ^ 1) with 256 in Hw.
  unfold word_tokens, le_byte. cbn [seq map app Nat.eqb Z.of_nat].
  change (256 ^ 0) with 1. rewrite Z.div_1_r, !andb_true_r.
  rewrite Z.mod_small by lia.
  reflexivity.
Qed.

Lemma single_byte_words_pass_through_witness :
  feed (mk_config 1 1 64) reset
       [mk_word 7 true false; mk_word 8 false false; mk_word 9 false true]
       (repeat true 4)
  = [mk_byte 7 true false; mk_byte 8 false false; mk_byte 9 false true].
Proof.
  rewrite (single_byte_words_pass_through (mk_config 1 1 64)).
  - reflexivity.
  - reflexivity.
  - repeat constructor; vm_compute; discriminate.
Defined.

(** ** Registers *)

Lemma registers_step c s i :
  1 <= _byte_width c ->
  0 <= bytes_to_send s <= _byte_width c - 1
  /\ 0 <= data_shift s < 256 ^ (bytes_to_send s + 1) ->
  0 <= bytes_to_send (step c s i) <= _byte_width c - 1
  /\ 0 <= data_shift (step c s i) < 256 ^ (bytes_to_send (step c s i) + 1).
Proof.
  intros Hw Hs.
  assert (Hload : forall next,
             0 <= bytes_to_send (load c i next) <= _byte_width c - 1
             /\ 0 <= data_shift (load c i next)
                < 256 ^ (bytes_to_send (load c i next) + 1)).
  { intros next. unfold load; cbn [bytes_to_send data_shift].
    rewrite counter_fits by assumption.
    replace (_byte_width c - 1 + 1) with (_byte_width c) by lia.
    split; [lia |]. unfold truncate.
    replace (_byte_width c * 8) with (8 * _byte_width c) by lia.
    rewrite Z.pow_mul_r by lia. change (2 ^ 8) with 256.
    apply Z.mod_pos_bound. apply Z.pow_pos_nonneg; lia. }
  unfold step. destruct (fsm s).
  - destruct (word_stream_valid i); [apply Hload | exact Hs].
  - destruct (byte_stream_ready i); [| exact Hs].
    destruct (bytes_to_send s >? 0) eqn:Hpos.
    + apply Z.gtb_lt in Hpos. cbn [bytes_to_send data_shift].
      destruct (slice_shift (_byte_width c) (data_shift s) (bytes_to_send s))
        as [Hsl Hq]; [lia | tauto |].
      rewrite Hsl. replace (bytes_to_send s - 1 + 1) with (bytes_to_send s) by lia.
      split; lia.
    + destruct (word_stream_valid i); [apply Hload | exact Hs].
Qed.

(** For any inputs, after any run from reset, the byte counter lies
    between 0 and byte_width - 1, so it never wraps below zero and always
    fits its register, and the shift register holds no more than the
    bytes the counter still announces. *)
Theorem registers_stay_in_word c tr :
  1 <= _byte_width c ->
  0 <= bytes_to_send (run c reset tr) <= _byte_width c - 1
  /\ 0 <= data_shift (run c reset tr)
     < 256 ^ (bytes_to_send (run c reset tr) + 1).
Proof.
  intros Hw.
  assert (Hgen : forall s,
             0 <= bytes_to_send s <= _byte_width c - 1
             /\ 0 <= data_shift s < 256 ^ (bytes_to_send s + 1) ->
             0 <= bytes_to_send (run c s tr) <= _byte_width c - 1
             /\ 0 <= data_shift (run c s tr)
                < 256 ^ (bytes_to_send (run c s tr) + 1)).
  { induction tr as [|i tr IH]; intros s Hs; [exact Hs |].
    cbn [run]. apply IH. now apply registers_step. }
  apply Hgen. cbn. lia.
Qed.

Lemma registers_stay_in_word_witness :
  let c := mk_config 4 1 64 in
  let tr := [mk_inputs true (mk_word (2 ^ 40 + 5) true true) true;
             mk_inputs false (mk_word 0 false false) true] in
  bytes_to_send (run c reset tr) = 2
  /\ 0 <= data_shift (run c reset tr) < 256 ^ (bytes_to_send (run c reset tr) + 1).
Proof.
  cbv zeta. split; [reflexivity |].
  apply (registers_stay_in_word (mk_config 4 1 64)).
  vm_compute; discriminate.
Defined.

(** ** Backpressure from the inner endpoint *)

(** While the inner endpoint is not ready during a transmission the
    adapter stands still: no register changes, no byte is handed over and
    no word is taken from the producer, whatever the producer offers. *)
Theorem stalled_adapter_stands_still c s tr :
  fsm s = TRANSMIT ->
  Forall (fun i => byte_stream_ready i = false) tr ->
  run c s tr = s /\ emitted c s tr = [] /\ accepted c s tr = [].
Proof.
  intros Hs Hall. induction Hall as [|i tr Hi _ IH]; [auto |].
  cbn [run emitted accepted].
  assert (Hst : step c s i = s) by (unfold step; now rewrite Hs, Hi).
  unfold byte_transfer, word_transfer, word_stream_ready.
  rewrite Hst, Hs, Hi, !andb_false_r. cbn [andb app]. exact IH.
Qed.

Lemma stalled_adapter_stands_still_witness :
  let s := mk_state TRANSMIT 513 true true 1 in
  let tr := [mk_inputs true (mk_word 7 true true) false;
             mk_inputs true (mk_word 7 true true) false] in
  run ep4 s tr = s /\ emitted ep4 s tr = [] /\ accepted ep4 s tr = [].
Proof.
  cbv zeta. apply stalled_adapter_stands_still.
  - reflexivity.
  - repeat constructor.
Defined.

End WordAdapterExtras.
